(** * Yield sweep and yield plot of yarrowia-13C-gsm

    A shallow embedding of
    - [src/plotting/generate_beta_carotene_yield_df.py]
      ([generate_beta_carotene_yield_df] and
       [max_beta_carotene_production_from_oleic_acid]), and
    - [src/plotting/plot_beta_carotene_and_co2_yield.py]
      ([plot_beta_carotene_and_co2_yield]).

    Python [float]s are IEEE 754 binary64 numbers; they are modelled by Rocq's
    primitive floats, which are binary64 with round-to-nearest-even, so every
    arithmetic step below rounds exactly as CPython does.  The cobra model
    object is threaded as explicit state, the external solver [sd.fba] and
    the formatting of a float inside an f-string are parameters, and Python
    exceptions are an error result. *)

From Stdlib Require Import ZArith QArith Qabs Qpower Floats String List Lia Lqa.
From stdpp Require Import base option list gmap strings.

Set Warnings "-inexact-float".
Set Default Proof Using "Type".

Open Scope Z_scope.

(** ** Numbers *)

(** [float(z)] for a Python int: the binary64 number nearest to [z]. *)
Definition float_of_int (z : Z) : float :=
  SF2Prim (binary_normalize prec emax z 0 false).

(** The exact rational value of a finite float; [None] for nan and the
    infinities.  Only used to state tolerances, never by the program. *)
Definition SFvalue (x : spec_float) : option Q :=
  match x with
  | S754_zero _ => Some 0%Q
  | S754_finite s m e =>
      Some ((if s then (-1) else 1) * inject_Z (Z.pos m) * (2 ^ e))%Q
  | S754_infinity _ | S754_nan => None
  end.

Definition value (x : float) : option Q := SFvalue (Prim2SF x).

(** [within tol x y]: both floats are finite and [|x - y| <= tol], the
    difference being taken exactly. *)
Definition within (tol : Q) (x y : float) : bool :=
  match value x, value y with
  | Some a, Some b => Qle_bool (Qabs (a - b)) tol
  | _, _ => false
  end.

(** [near tol x q]: the float is finite and within [tol] of the rational. *)
Definition near (tol : Q) (x : float) (q : Q) : bool :=
  match value x with
  | Some a => Qle_bool (Qabs (a - q)) tol
  | None => false
  end.

(** [sum_near tol x y q]: both floats are finite and their exact sum is
    within [tol] of the rational. *)
Definition sum_near (tol : Q) (x y : float) (q : Q) : bool :=
  match value x, value y with
  | Some a, Some b => Qle_bool (Qabs (a + b - q)) tol
  | _, _ => false
  end.

Definition tol9 : Q := 1 # 1000000000.

(** [nearest x q]: the float is finite and within half a unit in its last
    place of the rational, so no other binary64 number is nearer to [q]. *)
Definition nearest (x : float) (q : Q) : bool :=
  match Prim2SF x with
  | S754_finite _ _ e => near ((1 # 2) * 2 ^ e) x q
  | _ => false
  end.

(** ** Exceptions and results *)

Inductive exn :=
| ZeroDivisionError
| KeyError (key : string)
| IndexError
| SolverError (msg : string).

Inductive Result (A : Type) :=
| Ok (a : A)
| Raise (e : exn).
Arguments Ok {A} a.
Arguments Raise {A} e.

Definition is_ok {A} (r : Result A) : bool :=
  match r with Ok _ => true | Raise _ => false end.

#[export] Instance Result_ret : MRet Result := fun A a => Ok a.
#[export] Instance Result_bind : MBind Result := fun A B f r =>
  match r with
  | Ok a => f a
  | Raise e => Raise e
  end.

(** Python's [x / y] on floats: [ZeroDivisionError] when [y] is [0.0] or
    [-0.0]; overflow gives an infinity and nan propagates, without error. *)
Definition truediv (x y : float) : Result float :=
  if (y =? 0)%float then Raise ZeroDivisionError else Ok (x / y)%float.

(** The two unit conversions; the source writes them inline (lines 26-27
    and 48-55). *)
Definition grams_to_mmol (g molar_mass : float) : Result float :=
  truediv (float_of_int 1000 * g)%float molar_mass.

Definition mmol_to_grams (mmols molar_mass : float) : Result float :=
  moles ← truediv mmols (float_of_int 1000);
  mret (moles * molar_mass)%float.

(** ** Data model *)

(** A value stored in the medium: the source stores the Python ints [0] and
    [10000] next to the computed floats. *)
Inductive num :=
| PyInt (z : Z)
| PyFloat (f : float).

(** One row of the result table, and the table (a [pandas.DataFrame] built
    from a list of dicts: rows in list order). *)
Record Row := mkRow {
  g_glucose : float;
  g_oleic_acid : float;
  g_beta_carotene : float;
  g_co2 : float
}.

Abbreviation DataFrame := (list Row).

(** What the source reads of the object [sd.fba] returns. *)
Record Solution := mkSolution {
  objective_value : float;
  fluxes : gmap string float
}.

(** ** The model object, the solver and the state of a run *)

Section Sweep.

(** Everything a cobra model holds besides its medium: the reactions, the
    stoichiometry, whatever the solver keeps in it. *)
Context {Extra : Type}.

Record Model := mkModel {
  medium : gmap string num;
  extra : Extra
}.

(** One call of [sd.fba], as the run performs it: the model it was given,
    the three keyword arguments, and what the solver answered. *)
Record FbaCall := mkFbaCall {
  call_model : Model;
  call_obj : string;
  call_constraints : string;
  call_obj_sense : string;
  call_outcome : Result Solution
}.

(** The state a run threads: the shared model object and, as a ghost log,
    the solver calls made so far. *)
Record World := mkWorld {
  model : Model;
  fba_log : list FbaCall
}.

(** The external solver: given the model and the keyword arguments [obj],
    [constraints] and [obj_sense] it returns a solution or raises, and may
    leave the model changed. *)
Variable fba : Model → string → string → string → Model * Result Solution.

(** How an f-string prints a float ([format(x, '')], that is [repr]). *)
Variable float_repr : float → string.

(** State and exceptions; the state survives an exception, as in Python. *)
Definition M (A : Type) : Type := World → Result A * World.

#[local] Instance M_ret : MRet M := fun A a w => (Ok a, w).
#[local] Instance M_bind : MBind M := fun A B f c w =>
  match c w with
  | (Ok a, w') => f a w'
  | (Raise e, w') => (Raise e, w')
  end.

Definition lift {A} (r : Result A) : M A := fun w => (r, w).

(** [model.medium] read and assigned.  cobra is external: its medium is
    taken as the mapping from exchange-reaction identifier to uptake bound
    that the model holds, read and written back as a whole. *)
Definition get_medium : M (gmap string num) := fun w => (Ok (medium (model w)), w).

Definition set_medium (med : gmap string num) : M unit := fun w =>
  (Ok tt, mkWorld (mkModel med (extra (model w))) (fba_log w)).

(** [sd.fba(model, obj=..., constraints=..., obj_sense=...)]. *)
Definition sd_fba (obj constraints obj_sense : string) : M Solution := fun w =>
  let '(model', outcome) := fba (model w) obj constraints obj_sense in
  (outcome,
   mkWorld model' (fba_log w ++ [mkFbaCall (model w) obj constraints obj_sense outcome])).

(** [d[key]] on a dict. *)
Definition getitem {V} (d : gmap string V) (key : string) : Result V :=
  match d !! key with
  | Some v => Ok v
  | None => Raise (KeyError key)
  end.

(** Lines 29-40: the medium with its ten entries assigned. *)
Definition assign_medium (mmol_glucose mmol_oleic_acid : float)
    (medium : gmap string num) : gmap string num :=
  let medium := <["EX_glc_e" := PyFloat mmol_glucose]> medium in
  let medium := <["EX_ocdcea_e" := PyFloat mmol_oleic_acid]> medium in
  let medium := <["EX_glyc_e" := PyInt 0]> medium in
  let medium := <["EX_h2o_e" := PyInt 10000]> medium in
  let medium := <["EX_h_e" := PyInt 10000]> medium in
  let medium := <["EX_nh4_e" := PyInt 10000]> medium in
  let medium := <["EX_o2_e" := PyInt 10000]> medium in
  let medium := <["EX_pi_e" := PyInt 10000]> medium in
  let medium := <["EX_so4_e" := PyInt 10000]> medium in
  let medium := <["trehalose_c_tp" := PyInt 0]> medium in
  medium.

(** Line 43: the f-string. *)
Definition constraints_string (mmol_glucose mmol_oleic_acid : float) : string :=
  "EX_glc_e = " +:+ float_repr (float_of_int (-1) * mmol_glucose)%float
  +:+ ", EX_ocdcea_e = " +:+ float_repr (float_of_int (-1) * mmol_oleic_acid)%float.

(** The per-point function.  Its [model] argument is the model object of
    the state; a call without a model fails at once on [model.medium] and
    is not modelled. *)
Definition max_beta_carotene_production_from_oleic_acid
    (g_glucose g_oleic_acid : float) : M (float * float) :=
  let glucose_molar_mass := 180.16%float in
  let oleic_acid_molar_mass := 282.47%float in
  let beta_carotene_molar_mass := 536.87%float in
  mmol_glucose ← lift (grams_to_mmol g_glucose glucose_molar_mass);
  mmol_oleic_acid ← lift (grams_to_mmol g_oleic_acid oleic_acid_molar_mass);
  medium ← get_medium;
  set_medium (assign_medium mmol_glucose mmol_oleic_acid medium);;
  let constraints := constraints_string mmol_glucose mmol_oleic_acid in
  sol_max ← sd_fba "EX_caro_e" constraints "maximize";
  let beta_carotene_mmols := objective_value sol_max in
  beta_carotene_grams ← lift (mmol_to_grams beta_carotene_mmols beta_carotene_molar_mass);
  co2_mmols ← lift (getitem (fluxes sol_max) "EX_co2(e)");
  co2_grams ← lift (mmol_to_grams co2_mmols 44.01%float);
  mret (beta_carotene_grams, co2_grams).

(** Lines 7-8: the two gram amounts of step [val]. *)
Definition glucose_grams (val : Z) : float := (float_of_int val * 0.025)%float.
Definition oleic_acid_grams (val : Z) : float :=
  (float_of_int 1 - glucose_grams val)%float.

(** The loop of lines 6-11 over the values still to visit. *)
Fixpoint sweep_loop (vals : list Z) (beta_carotene_data : list Row) : M (list Row) :=
  match vals with
  | [] => mret beta_carotene_data
  | val :: vals' =>
      let g_glucose := glucose_grams val in
      let g_oleic_acid := oleic_acid_grams val in
      '(g_beta_carotene, g_co2) ←
        max_beta_carotene_production_from_oleic_acid g_glucose g_oleic_acid;
      sweep_loop vals'
        (beta_carotene_data ++ [mkRow g_glucose g_oleic_acid g_beta_carotene g_co2])
  end.

Definition generate_beta_carotene_yield_df : M DataFrame :=
  sweep_loop (seqZ 0 41) [].

End Sweep.

Arguments Model : clear implicits.
Arguments FbaCall : clear implicits.
Arguments World : clear implicits.

(** ** The plotter *)

(** The calls the plotter makes on [matplotlib.pyplot], in order. *)
Inductive PlotCmd :=
| Figure (width height : Z)
| Plot (xs ys : list float) (marker : option string)
       (linestyle color : string) (label : option string)
| Title (text : string)
| Xlabel (text : string)
| Ylabel (text : string)
| Legend
| Show.

(** [df.iloc[[i]]] for [i = 0] and [i = -1]: a one-row frame, or
    [IndexError] when the frame has no such row. *)
Definition iloc_first (df : DataFrame) : Result Row :=
  match df with
  | r :: _ => Ok r
  | [] => Raise IndexError
  end.

Definition iloc_last (df : DataFrame) : Result Row :=
  match last df with
  | Some r => Ok r
  | None => Raise IndexError
  end.

Definition plot_beta_carotene_and_co2_yield (beta_carotene_yield_df : DataFrame)
    : Result (list PlotCmd) :=
  first_point ← iloc_first beta_carotene_yield_df;
  last_point ← iloc_last beta_carotene_yield_df;
  mret [
    Figure 10 6;
    Plot (g_oleic_acid <$> beta_carotene_yield_df)
         (g_beta_carotene <$> beta_carotene_yield_df)
         (Some "o") "-" "blue" (Some "Beta-Carotene Yield (g/g)");
    Plot [g_oleic_acid first_point; g_oleic_acid last_point]
         [g_beta_carotene first_point; g_beta_carotene last_point]
         None "--" "gray" None;
    Plot (g_oleic_acid <$> beta_carotene_yield_df)
         (g_co2 <$> beta_carotene_yield_df)
         (Some "o") "-" "green" (Some "CO2 Loss (g/g)");
    Plot [g_oleic_acid first_point; g_oleic_acid last_point]
         [g_co2 first_point; g_co2 last_point]
         None "--" "gray" None;
    Title "Beta-Carotene Theoretical Yield and Associated CO2 Loss in Glucose and Oleic Acid Co-Feeding";
    Xlabel "Oleic Acid Fraction (g oleic acid / g total Substrate)";
    Ylabel "Yield (g product / g total substrate)";
    Legend;
    Show
  ].

(** ** Vocabulary of the statements *)

(** What the per-point function returns from the solver's answer (lines
    48-57), once the answer is known. *)
Definition point_result (outcome : Result Solution) : Result (float * float) :=
  match outcome with
  | Ok sol =>
      match fluxes sol !! "EX_co2(e)" with
      | Some co2_mmols =>
          Ok ((objective_value sol / 1000 * 536.87)%float,
              (co2_mmols / 1000 * 44.01)%float)
      | None => Raise (KeyError "EX_co2(e)")
      end
  | Raise e => Raise e
  end.

(** The solver calls a run made: the log entries added between two states. *)
Definition calls_since {Extra} (w w' : World Extra) : list (FbaCall Extra) :=
  drop (length (fba_log w)) (fba_log w').

(** The solver raised, or its flux mapping has no entry for the CO2
    exchange reaction. *)
Definition solver_failed {Extra} (c : FbaCall Extra) : Prop :=
  match call_outcome c with
  | Raise _ => True
  | Ok sol => fluxes sol !! "EX_co2(e)" = None
  end.

(** The keys lines 30-39 assign. *)
Definition assigned_keys : list string :=
  ["EX_glc_e"; "EX_ocdcea_e"; "EX_glyc_e"; "EX_h2o_e"; "EX_h_e"; "EX_nh4_e";
   "EX_o2_e"; "EX_pi_e"; "EX_so4_e"; "trehalose_c_tp"].

(** The eight fixed entries of lines 32-39. *)
Definition sentinel_bounds (med : gmap string num) : Prop :=
  med !! "EX_glyc_e" = Some (PyInt 0) ∧
  med !! "EX_h2o_e" = Some (PyInt 10000) ∧
  med !! "EX_h_e" = Some (PyInt 10000) ∧
  med !! "EX_nh4_e" = Some (PyInt 10000) ∧
  med !! "EX_o2_e" = Some (PyInt 10000) ∧
  med !! "EX_pi_e" = Some (PyInt 10000) ∧
  med !! "EX_so4_e" = Some (PyInt 10000) ∧
  med !! "trehalose_c_tp" = Some (PyInt 0).

(** Grams to millimoles and back, at one molar mass. *)
Definition round_trip (g molar_mass : float) : Result float :=
  grams ← mmol_to_grams g molar_mass;
  grams_to_mmol grams molar_mass.

(** The call the per-point function makes for step [val], seen from the
    solver: the medium it finds in the model and its three arguments. *)
Definition call_of_step {Extra} (float_repr : float → string)
    (val : Z) (c : FbaCall Extra) : Prop :=
  ∃ mmol_glucose mmol_oleic_acid prior,
    grams_to_mmol (glucose_grams val) 180.16 = Ok mmol_glucose ∧
    grams_to_mmol (oleic_acid_grams val) 282.47 = Ok mmol_oleic_acid ∧
    medium (call_model c) = assign_medium mmol_glucose mmol_oleic_acid prior ∧
    call_obj c = "EX_caro_e" ∧
    call_constraints c = constraints_string float_repr mmol_glucose mmol_oleic_acid ∧
    call_obj_sense c = "maximize".

(** The outcome logged with a call is what the solver answered to it. *)
Definition call_answered {Extra}
    (fba : Model Extra → string → string → string → Model Extra * Result Solution)
    (c : FbaCall Extra) : Prop :=
  call_outcome c =
  (fba (call_model c) (call_obj c) (call_constraints c) (call_obj_sense c)).2.

(** The row of step [val], given the call made for it. *)
Definition row_of_step {Extra} (val : Z) (c : FbaCall Extra) (r : Row) : Prop :=
  g_glucose r = glucose_grams val ∧
  g_oleic_acid r = oleic_acid_grams val ∧
  point_result (call_outcome c) = Ok (g_beta_carotene r, g_co2 r).

(** Solvers and states to run the program on. *)

(** A solver that answers every call with objective value [V] and a flux
    mapping holding [C] for the CO2 exchange, and leaves the model alone. *)
Definition stub_fba (V C : float)
    : Model unit → string → string → string → Model unit * Result Solution :=
  λ m _ _ _, (m, Ok (mkSolution V {[ "EX_co2(e)" := C ]})).

(** A solver that counts its calls in the model and raises at call
    number [n] (from 0). *)
Definition failing_fba (n : nat)
    : Model nat → string → string → string → Model nat * Result Solution :=
  λ m _ _ _,
    (mkModel (medium m) (S (extra m)),
     if decide (extra m = n) then Raise (SolverError "infeasible")
     else Ok (mkSolution 2 {[ "EX_co2(e)" := 3%float ]})).

(** A solver that finds call number [n] infeasible and says so in the
    solution it returns: nan as objective value and nan for every flux. *)
Definition infeasible_fba (n : nat)
    : Model nat → string → string → string → Model nat * Result Solution :=
  λ m _ _ _,
    (mkModel (medium m) (S (extra m)),
     Ok (if decide (extra m = n)
         then mkSolution nan {[ "EX_co2(e)" := nan ]}
         else mkSolution 2 {[ "EX_co2(e)" := 3%float ]})).

(** A solver whose answer lacks the CO2 exchange at call number [n]. *)
Definition forgetful_fba (n : nat)
    : Model nat → string → string → string → Model nat * Result Solution :=
  λ m _ _ _,
    (mkModel (medium m) (S (extra m)),
     Ok (mkSolution 2 (if decide (extra m = n) then ∅ else {[ "EX_co2(e)" := 3%float ]}))).

(** The table of a run that returned one. *)
Definition table_of (r : Result DataFrame) : DataFrame :=
  match r with
  | Ok t => t
  | Raise _ => []
  end.

Definition no_repr : float → string := λ _, "".

Definition fresh_world {Extra} (x : Extra) : World Extra :=
  mkWorld (mkModel ∅ x) [].

(** The table of the plotter scenario. *)
Definition two_row_table : DataFrame :=
  [mkRow 0 1 0.1 0.05; mkRow 1 0 0.9 0.4].

(** ** Vocabulary of the further properties *)

(** A solver that leaves the model as it found it. *)
Definition preserving {Extra}
    (fba : Model Extra → string → string → string → Model Extra * Result Solution)
    : Prop :=
  ∀ m obj constraints obj_sense, (fba m obj constraints obj_sense).1 = m.

(** The medium after lines 26-40 at step [val], over the medium [initial]. *)
Definition step_medium (val : Z) (initial : gmap string num) : gmap string num :=
  assign_medium (1000 * glucose_grams val / 180.16)
                (1000 * oleic_acid_grams val / 282.47) initial.

(** Two rows the plotter cannot tell apart: they agree on the three columns
    it reads. *)
Definition same_plotted (r r' : Row) : Prop :=
  g_oleic_acid r = g_oleic_acid r' ∧
  g_beta_carotene r = g_beta_carotene r' ∧
  g_co2 r = g_co2 r'.

(** The two-row table with other glucose grams. *)
Definition two_row_table_other_glucose : DataFrame :=
  [mkRow 0.5 1 0.1 0.05; mkRow 0.25 0 0.9 0.4].

(** A solver that answers with the glucose bound it finds in the medium
    as objective value, and leaves the model alone. *)
Definition echo_fba
    : Model unit → string → string → string → Model unit * Result Solution :=
  λ m _ _ _,
    (m, Ok (mkSolution
              (match medium m !! "EX_glc_e" with Some (PyFloat x) => x | _ => 0 end)
              {[ "EX_co2(e)" := 3%float ]})).

(** ** Vocabulary of the rounding analysis *)

(** Powers of two, the sign of a float, the unit roundoff of binary64 and
    half its smallest positive number. *)
Definition bpow (e : Z) : Q := (2 ^ e)%Q.

Definition sgn (s : bool) : Q := if s then (-1)%Q else 1%Q.

Definition u53 : Q := bpow (-53).
Definition eta : Q := bpow (-1075).

(** Where a nonnegative rational lies between an integer and the next. *)
Definition inbetween (m : Z) (l : location) (ρ : Q) : Prop :=
  match l with
  | loc_Exact => (ρ == inject_Z m)%Q
  | loc_Inexact Lt => (inject_Z m < ρ ∧ ρ < inject_Z m + (1 # 2))%Q
  | loc_Inexact Eq => (ρ == inject_Z m + (1 # 2))%Q
  | loc_Inexact Gt => (inject_Z m + (1 # 2) < ρ ∧ ρ < inject_Z m + 1)%Q
  end.

(** ** Arithmetic facts *)

Lemma truediv_nonzero (x y : float) :
  (y =? 0)%float = false → truediv x y = Ok (x / y)%float.
Proof. intros H. unfold truediv. by rewrite H. Qed.

(** The decimal literals of the source denote the binary64 numbers nearest
    to them, as in Python. *)
Lemma literals_nearest :
  nearest 0.025 (25 # 1000) = true ∧
  nearest 180.16 (18016 # 100) = true ∧
  nearest 282.47 (28247 # 100) = true ∧
  nearest 536.87 (53687 # 100) = true ∧
  nearest 44.01 (4401 # 100) = true.
Proof. split_and!; vm_compute; reflexivity. Qed.

Lemma grams_to_mmol_nonzero (g molar_mass : float) :
  (molar_mass =? 0)%float = false →
  grams_to_mmol g molar_mass = Ok (1000 * g / molar_mass)%float.
Proof. intros H. unfold grams_to_mmol. by rewrite truediv_nonzero. Qed.

Lemma mmol_to_grams_eq (mmols molar_mass : float) :
  mmol_to_grams mmols molar_mass = Ok (mmols / 1000 * molar_mass)%float.
Proof. unfold mmol_to_grams. by rewrite truediv_nonzero. Qed.

Lemma bounded_inv m e :
  bounded prec emax m e = true →
  fexp prec emax (Z.pos (digits2_pos m) + e) = e ∧ e ≤ emax - prec.
Proof.
  unfold bounded, canonical_mantissa. intros [H1 H2]%andb_prop.
  apply Z.eqb_eq in H1. apply Z.leb_le in H2. done.
Qed.

(** Multiplying by [float(-1)] negates, for every float: the product has
    the mantissa shifted left by 52 bits, and rounding shifts it back. *)
Lemma neg_one_mul (x : float) : (float_of_int (-1) * x = - x)%float.
Proof.
  apply Prim2SF_inj. rewrite mul_spec, opp_spec.
  change (Prim2SF (float_of_int (-1))) with (S754_finite true 4503599627370496 (-52)).
  pose proof (Prim2SF_valid x) as Hv.
  destruct (Prim2SF x) as [s|s| |s m e]; try reflexivity.
  cbn [valid_binary] in Hv. apply bounded_inv in Hv as [Hc He].
  unfold SF64mul, SFmul. cbn [xorb].
  unfold binary_round_aux, shr_fexp.
  cbv beta iota fix delta [Pos.mul].
  cbn [Zdigits2 digits2_pos].
  rewrite !Pos2Z.inj_succ.
  match goal with |- context [fexp prec emax ?a - ?b] =>
    replace (fexp prec emax a - b) with 52
      by (replace a with (Z.pos (digits2_pos m) + e) by lia; rewrite Hc; lia) end.
  cbn [shr shr_record_of_loc SpecFloat.iter_pos shr_1 orb].
  cbn [shr_m loc_of_shr_record round_nearest_even Zdigits2].
  replace (-52 + e + 52) with e by lia.
  rewrite Hc, Z.sub_diag. cbn [shr shr_m shr_record_of_loc].
  apply Z.leb_le in He. rewrite He. reflexivity.
Qed.

(** ** Rounding error of binary64 multiplication and division *)

Lemma bpow_pos e : (0 < bpow e)%Q.
Proof. apply Qpower_0_lt. reflexivity. Qed.

Lemma bpow_add a b : (bpow (a + b) == bpow a * bpow b)%Q.
Proof. apply Qpower_plus. discriminate. Qed.

Lemma bpow_le a b : a ≤ b → (bpow a <= bpow b)%Q.
Proof. intros H. apply Qpower_le_compat_l; [done | discriminate]. Qed.

Lemma bpow_lt a b : a < b → (bpow a < bpow b)%Q.
Proof. intros H. apply Qpower_lt_compat_l; [done | reflexivity]. Qed.

Lemma bpow_Z n : 0 ≤ n → (bpow n == inject_Z (2 ^ n))%Q.
Proof. intros H. unfold bpow. by rewrite Zpower_Qpower. Qed.

Lemma bpow_succ a : (bpow (a + 1) == 2 * bpow a)%Q.
Proof. rewrite bpow_add. change (bpow 1) with 2%Q. ring. Qed.

Lemma bpow_opp a : (bpow a * bpow (- a) == 1)%Q.
Proof. rewrite <- bpow_add, Z.add_opp_diag_r. reflexivity. Qed.

Lemma inject_Z_xO p : (inject_Z (Z.pos p~0) == 2 * inject_Z (Z.pos p))%Q.
Proof. unfold Qeq. cbn. lia. Qed.

Lemma inject_Z_xI p : (inject_Z (Z.pos p~1) == 2 * inject_Z (Z.pos p) + 1)%Q.
Proof. unfold Qeq. cbn. lia. Qed.

Lemma shr_1_inbetween mrs ρ :
  0 ≤ shr_m mrs →
  inbetween (shr_m mrs) (loc_of_shr_record mrs) ρ →
  0 ≤ shr_m (shr_1 mrs) ∧
  inbetween (shr_m (shr_1 mrs)) (loc_of_shr_record (shr_1 mrs)) (ρ * (1 # 2)).
Proof.
  destruct mrs as [[|[p|p|]|p] r s]; cbn [shr_m]; intros Hm Hin; [..|lia];
    (split; [cbn; lia|]); revert Hin;
    destruct r, s; cbn -[inject_Z Qdiv Qlt Qeq Qplus];
    rewrite ?inject_Z_xO, ?inject_Z_xI;
    change (inject_Z 1) with 1%Q; change (inject_Z 0) with 0%Q;
    intros Hin; lra.
Qed.

#[local] Instance inbetween_proper m l : Proper (Qeq ==> iff) (inbetween m l).
Proof. intros x y Hxy. destruct l as [|[]]; cbn; by rewrite Hxy. Qed.

Lemma iter_shr_1_inbetween p : ∀ mrs ρ,
  0 ≤ shr_m mrs →
  inbetween (shr_m mrs) (loc_of_shr_record mrs) ρ →
  0 ≤ shr_m (SpecFloat.iter_pos shr_1 p mrs) ∧
  inbetween (shr_m (SpecFloat.iter_pos shr_1 p mrs))
    (loc_of_shr_record (SpecFloat.iter_pos shr_1 p mrs)) (ρ * bpow (- Z.pos p)).
Proof.
  induction p as [p IH|p IH|]; intros mrs ρ Hm Hin; cbn [SpecFloat.iter_pos].
  - destruct (shr_1_inbetween _ _ Hm Hin) as [Hm1 Hin1].
    destruct (IH _ _ Hm1 Hin1) as [Hm2 Hin2].
    destruct (IH _ _ Hm2 Hin2) as [Hm3 Hin3].
    split; [done|]. revert Hin3. apply inbetween_proper.
    replace (- Z.pos p~1) with (-1 + (- Z.pos p + - Z.pos p)) by lia.
    rewrite !bpow_add. change (bpow (-1)) with (1 # 2)%Q. ring.
  - destruct (IH _ _ Hm Hin) as [Hm2 Hin2].
    destruct (IH _ _ Hm2 Hin2) as [Hm3 Hin3].
    split; [done|]. revert Hin3. apply inbetween_proper.
    replace (- Z.pos p~0) with (- Z.pos p + - Z.pos p) by lia.
    rewrite !bpow_add. ring.
  - destruct (shr_1_inbetween _ _ Hm Hin) as [Hm1 Hin1].
    split; [done|]. revert Hin1. apply inbetween_proper.
    change (ρ * (1 # 2) == ρ * (1 # 2))%Q. reflexivity.
Qed.

Lemma loc_of_shr_record_of_loc m l :
  loc_of_shr_record (shr_record_of_loc m l) = l ∧
  shr_m (shr_record_of_loc m l) = m.
Proof. by destruct l as [|[]]. Qed.

(** Rounding to nearest, ties to even: off by at most one half. *)
Lemma round_nearest_even_spec m l ρ :
  inbetween m l ρ →
  m ≤ round_nearest_even m l ≤ m + 1 ∧
  (Qabs (inject_Z (round_nearest_even m l) - ρ) <= 1 # 2)%Q ∧
  (l = loc_Exact → round_nearest_even m l = m).
Proof.
  intros Hin. split; [|split]; [| |by intros ->].
  - destruct l as [|[]]; cbn; try destruct (Z.even m); lia.
  - apply Qabs_Qle_condition.
    destruct l as [|[]]; cbn in *; try destruct (Z.even m);
      rewrite ?inject_Z_plus; change (inject_Z 1) with 1%Q; lra.
Qed.

(** The number of binary digits of a nonnegative integer. *)
Lemma digits2_pos_size p : digits2_pos p = Pos.size p.
Proof. induction p as [p IH|p IH|]; cbn; by rewrite ?IH. Qed.

Lemma Zdigits2_bounds m :
  0 < m → 2 ^ (Zdigits2 m - 1) ≤ m ∧ m < 2 ^ Zdigits2 m.
Proof.
  destruct m as [|p|p]; [lia| |lia]. intros _.
  change (Zdigits2 (Z.pos p)) with (Z.pos (digits2_pos p)).
  rewrite digits2_pos_size.
  pose proof (Pos.size_gt p) as Hgt. pose proof (Pos.size_le p) as Hle.
  apply Pos2Z.pos_lt_pos in Hgt. apply Pos2Z.pos_le_pos in Hle.
  rewrite Pos2Z.inj_pow in Hgt, Hle. change (Z.pos p~0) with (2 * Z.pos p) in Hle.
  split; [|done].
  assert (2 ^ Z.pos (Pos.size p) = 2 * 2 ^ (Z.pos (Pos.size p) - 1)) as Heq.
  { rewrite <- Z.pow_succ_r by lia. f_equal. lia. }
  lia.
Qed.

Lemma Zdigits2_nonneg m : 0 ≤ Zdigits2 m.
Proof. by destruct m. Qed.

Lemma Zdigits2_upper m : 0 ≤ m → (inject_Z m + 1 <= bpow (Zdigits2 m))%Q.
Proof.
  intros Hm. rewrite bpow_Z by apply Zdigits2_nonneg.
  change 1%Q with (inject_Z 1). rewrite <- inject_Z_plus, <- Zle_Qle.
  destruct (decide (m = 0)) as [->|Hne]; [done|].
  pose proof (Zdigits2_bounds m ltac:(lia)). lia.
Qed.

Lemma Zdigits2_lower m : 0 < m → (bpow (Zdigits2 m - 1) <= inject_Z m)%Q.
Proof.
  intros Hm. pose proof (Zdigits2_bounds m Hm) as [Hlo _].
  assert (0 ≤ Zdigits2 m - 1) by (destruct m; cbn; lia).
  rewrite bpow_Z by done. by rewrite <- Zle_Qle.
Qed.

Lemma Zdigits2_le m k : 0 ≤ m → m < 2 ^ k → 0 ≤ k → Zdigits2 m ≤ k.
Proof.
  intros Hm Hlt Hk. destruct (decide (m = 0)) as [->|Hne]; [done|].
  pose proof (Zdigits2_bounds m ltac:(lia)) as [Hlo _].
  destruct (Z.le_gt_cases (Zdigits2 m) k) as [|Hgt]; [done|].
  assert (2 ^ k ≤ 2 ^ (Zdigits2 m - 1)) by (apply Z.pow_le_mono_r; lia). lia.
Qed.

Lemma fexp_eq e : fexp prec emax e = Z.max (e - 53) (-1074).
Proof. reflexivity. Qed.

Lemma inbetween_bounds m l ρ :
  inbetween m l ρ → (inject_Z m <= ρ ∧ ρ < inject_Z m + 1)%Q.
Proof. destruct l as [|[]]; cbn; lra. Qed.

Lemma shr_fexp_spec m0 e0 l ρ :
  0 ≤ m0 → inbetween m0 l ρ →
  let E := Z.max (fexp prec emax (Zdigits2 m0 + e0)) e0 in
  ∃ mrs,
    shr_fexp prec emax m0 e0 l = (mrs, E) ∧
    0 ≤ shr_m mrs ∧
    inbetween (shr_m mrs) (loc_of_shr_record mrs) (ρ * bpow (e0 - E)) ∧
    (E = e0 → mrs = shr_record_of_loc m0 l).
Proof.
  intros Hm Hin E. unfold shr_fexp, shr.
  destruct (loc_of_shr_record_of_loc m0 l) as [Hl Hrm].
  destruct (fexp prec emax (Zdigits2 m0 + e0) - e0) as [|p|p] eqn:Hn.
  - assert (E = e0) as -> by lia. eexists. split_and!; [done | by rewrite Hrm | | done].
    rewrite Hl, Hrm, Z.sub_diag. revert Hin. apply inbetween_proper.
    change (bpow 0) with 1%Q. ring.
  - assert (E = e0 + Z.pos p) as -> by lia.
    destruct (iter_shr_1_inbetween p (shr_record_of_loc m0 l) ρ) as [Hm' Hin'].
    { by rewrite Hrm. } { by rewrite Hl, Hrm. }
    eexists. split_and!; [done | done | | lia].
    by replace (e0 - (e0 + Z.pos p)) with (- Z.pos p) by lia.
  - assert (E = e0) as -> by lia. eexists. split_and!; [done | by rewrite Hrm | | done].
    rewrite Hl, Hrm, Z.sub_diag. revert Hin. apply inbetween_proper.
    change (bpow 0) with 1%Q. ring.
Qed.

(** The rounding step shared by multiplication and division: the mantissa
    kept is within one half of the exact one, at the exponent [E]. *)
Lemma binary_round_aux_spec s m0 e0 l ρ :
  0 ≤ m0 → inbetween m0 l ρ →
  let E := Z.max (fexp prec emax (Zdigits2 m0 + e0)) e0 in
  E < emax - prec →
  ∃ m'' q,
    0 ≤ m'' ∧
    (Qabs (inject_Z m'' - ρ * bpow (e0 - E)) <= 1 # 2)%Q ∧
    (l = loc_Exact → E = e0 → m'' = m0) ∧
    SFvalue (binary_round_aux prec emax s m0 e0 l) = Some q ∧
    (q == sgn s * inject_Z m'' * bpow E)%Q.
Proof.
  intros Hm Hin E HE.
  destruct (shr_fexp_spec m0 e0 l ρ Hm Hin) as (mrs & Hshr & Hm' & Hin' & Hsame).
  fold E in Hshr, Hin', Hsame.
  assert (HEmin : -1074 ≤ E) by (subst E; rewrite fexp_eq; lia).
  assert (HEd : Zdigits2 m0 + e0 - 53 ≤ E) by (subst E; rewrite fexp_eq; lia).
  assert (Hexact : l = loc_Exact → E = e0 →
            round_nearest_even (shr_m mrs) (loc_of_shr_record mrs) = m0).
  { intros -> HEe. by rewrite (Hsame HEe). }
  unfold binary_round_aux. rewrite Hshr.
  destruct (round_nearest_even_spec _ _ _ Hin') as (Hr1 & Hr2 & _).
  set (m' := shr_m mrs) in *. set (l' := loc_of_shr_record mrs) in *.
  set (m'' := round_nearest_even m' l') in *.
  assert (Hlt : m' < 2 ^ 53).
  { rewrite Zlt_Qlt, <- bpow_Z by done.
    destruct (inbetween_bounds _ _ _ Hin') as [Hlo _].
    destruct (inbetween_bounds _ _ _ Hin) as [_ Hhi].
    pose proof (Zdigits2_upper m0 Hm) as Hd.
    pose proof (bpow_pos (e0 - E)) as Hpos.
    assert (ρ * bpow (e0 - E) < bpow (Zdigits2 m0) * bpow (e0 - E))%Q as Hmul.
    { apply Qmult_lt_compat_r; [done | lra]. }
    rewrite <- bpow_add in Hmul.
    pose proof (bpow_le (Zdigits2 m0 + (e0 - E)) 53 ltac:(lia)). lra. }
  exists m''.
  destruct (decide (m'' < 2 ^ 53)) as [Hsmall|Hbig].
  - assert (Hd : Zdigits2 m'' ≤ 53) by (apply Zdigits2_le; lia).
    destruct (shr_fexp_spec m'' E loc_Exact (inject_Z m'') ltac:(lia) ltac:(done))
      as (mrs2 & Hshr2 & _ & _ & Hsame2).
    assert (HE2 : Z.max (fexp prec emax (Zdigits2 m'' + E)) E = E)
      by (rewrite fexp_eq; lia).
    rewrite HE2 in Hshr2, Hsame2. rewrite Hshr2, (Hsame2 eq_refl).
    cbn [shr_record_of_loc shr_m].
    destruct m'' as [|p|p] eqn:Hm''; [| |lia].
    + exists 0%Q. split_and!; [lia | done | done | done |].
      change (inject_Z 0) with 0%Q. ring.
    + assert ((E <=? emax - prec) = true) as -> by (apply Z.leb_le; lia).
      eexists. split_and!; [lia | done | done | done |].
      cbn [SFvalue]. destruct s; reflexivity.
  - assert (m'' = 9007199254740992) as Hm'' by lia.
    exists (sgn s * inject_Z 4503599627370496 * bpow (E + 1))%Q.
    split_and!; [lia | done | done | |].
    + rewrite Hm''. unfold shr_fexp.
      assert (fexp prec emax (Zdigits2 9007199254740992 + E) - E = 1) as ->.
      { change (Zdigits2 9007199254740992) with 54. rewrite fexp_eq. lia. }
      cbn [shr shr_record_of_loc SpecFloat.iter_pos shr_1 shr_m orb].
      assert ((E + 1 <=? emax - prec) = true) as -> by (apply Z.leb_le; lia).
      cbn [SFvalue]. destruct s; reflexivity.
    + rewrite Hm'', bpow_succ.
      change (inject_Z 9007199254740992) with (2 * inject_Z 4503599627370496)%Q.
      ring.
Qed.

Lemma bpow_lt_inv a b : (bpow a < bpow b)%Q → a < b.
Proof.
  intros H. destruct (Z.lt_ge_cases a b) as [|Hge]; [done|].
  pose proof (bpow_le b a Hge). lra.
Qed.

Lemma Qabs_sgn s q : (Qabs (sgn s * q) == Qabs q)%Q.
Proof.
  rewrite Qabs_Qmult. destruct s; cbn [sgn]; [change (Qabs (-1)) with 1%Q|change (Qabs 1) with 1%Q]; ring.
Qed.

(** From one half on the mantissa to one half unit in the last place on
    the value. *)
Lemma round_error s m'' E ρ e0 q T :
  (q == sgn s * inject_Z m'' * bpow E)%Q →
  (T == sgn s * ρ * bpow e0)%Q →
  (Qabs (inject_Z m'' - ρ * bpow (e0 - E)) <= 1 # 2)%Q →
  (Qabs (q - T) <= (1 # 2) * bpow E)%Q.
Proof.
  intros -> -> H.
  assert (sgn s * inject_Z m'' * bpow E - sgn s * ρ * bpow e0 ==
          sgn s * ((inject_Z m'' - ρ * bpow (e0 - E)) * bpow E))%Q as ->.
  { replace e0 with ((e0 - E) + E) at 1 by lia. rewrite bpow_add. ring. }
  rewrite Qabs_sgn, Qabs_Qmult, (Qabs_pos (bpow E)) by (pose proof (bpow_pos E); lra).
  pose proof (bpow_pos E). 
  apply Qmult_le_compat_r; [done | lra].
Qed.


(** One half unit in the last place is at most 2^-53 of the exact value,
    or 2^-1075 when the result is subnormal. *)
Lemma half_ulp_le E k A :
  (0 <= A)%Q →
  E ≤ -1074 ∨ (E ≤ k - 53 ∧ (bpow (k - 1) <= A)%Q) →
  ((1 # 2) * bpow E <= u53 * A + eta)%Q.
Proof.
  intros HA [HE|[HE HkA]]; unfold u53, eta.
  - pose proof (bpow_le E (-1074) HE) as H.
    assert (bpow (-1075) == (1 # 2) * bpow (-1074))%Q as -> by reflexivity.
    pose proof (bpow_pos (-53)).
    assert (0 <= bpow (-53) * A)%Q by (apply Qmult_le_0_compat; lra). lra.
  - pose proof (bpow_le E (k - 53) HE) as H.
    assert (bpow (k - 53) == 2 * (bpow (-53) * bpow (k - 1)))%Q as Heq.
    { replace (k - 53) with ((-53 + (k - 1)) + 1) by lia.
      by rewrite bpow_succ, bpow_add. }
    pose proof (bpow_pos (-53)). pose proof (bpow_pos (-1075)).
    assert (bpow (-53) * bpow (k - 1) <= bpow (-53) * A)%Q.
    { rewrite !(Qmult_comm (bpow (-53))). apply Qmult_le_compat_r; lra. }
    lra.
Qed.

(** The product of two finite floats, when it does not overflow, is finite
    and off the exact product by at most 2^-53 of it plus 2^-1075. *)
Lemma SFmul_error x y qx qy :
  SFvalue x = Some qx → SFvalue y = Some qy →
  (Qabs (qx * qy) < bpow 900)%Q →
  ∃ q, SFvalue (SFmul prec emax x y) = Some q ∧
       (Qabs (q - qx * qy) <= u53 * Qabs (qx * qy) + eta)%Q.
Proof.
  assert (Hsmall : ∀ q t : Q, (q == 0 → t == 0 → Qabs (q - t) <= u53 * Qabs t + eta)%Q).
  { intros q t -> ->. change (0 <= eta)%Q. pose proof (bpow_pos (-1075)). unfold eta. lra. }
  destruct x as [sx|sx| |sx mx ex], y as [sy|sy| |sy my ey]; cbn [SFvalue]; try done;
    intros [= <-] [= <-] Hbound.
  - exists 0%Q. split; [done|]. apply Hsmall; [reflexivity | ring].
  - exists 0%Q. split; [done|]. apply Hsmall; [reflexivity | ring].
  - exists 0%Q. split; [done|]. apply Hsmall; [reflexivity | ring].
  - cbn [SFmul].
    set (m0 := Z.pos (mx * my)). set (e0 := ex + ey).
    set (T := (sgn (xorb sx sy) * inject_Z m0 * bpow e0)%Q).
    assert (HT : (sgn sx * inject_Z (Z.pos mx) * bpow ex *
                  (sgn sy * inject_Z (Z.pos my) * bpow ey) == T)%Q).
    { unfold T, m0, e0. rewrite bpow_add, Pos2Z.inj_mul, inject_Z_mult.
      destruct sx, sy; cbn [xorb sgn]; ring. }
    fold (bpow ex) in Hbound |- *. fold (bpow ey) in Hbound |- *.
    change (if sx then (-1)%Q else 1%Q) with (sgn sx) in Hbound |- *.
    change (if sy then (-1)%Q else 1%Q) with (sgn sy) in Hbound |- *.
    rewrite HT in Hbound.
    assert (HabsT : (Qabs T == inject_Z m0 * bpow e0)%Q).
    { unfold T. rewrite <- Qmult_assoc, Qabs_sgn, Qabs_pos; [done|].
      pose proof (bpow_pos e0). apply Qmult_le_0_compat; [|lra].
      by rewrite <- (Zle_Qle 0). }
    rewrite HabsT in Hbound.
    set (d := Zdigits2 m0).
    pose proof (Zdigits2_lower m0 ltac:(done)) as Hlow. fold d in Hlow.
    pose proof (bpow_pos e0) as He0pos.
    assert (Hm1 : (1 <= inject_Z m0)%Q) by (rewrite <- (Zle_Qle 1); unfold m0; lia).
    assert (Hde : d - 1 + e0 < 900).
    { apply bpow_lt_inv. rewrite bpow_add. 
      assert (bpow (d - 1) * bpow e0 <= inject_Z m0 * bpow e0)%Q
        by (apply Qmult_le_compat_r; lra). lra. }
    assert (He0 : e0 < 900).
    { apply bpow_lt_inv.
      assert (1 * bpow e0 <= inject_Z m0 * bpow e0)%Q
        by (apply Qmult_le_compat_r; lra). lra. }
    destruct (binary_round_aux_spec (xorb sx sy) m0 e0 loc_Exact (inject_Z m0))
      as (m'' & q & Hm'' & Herr & Hex & Hval & Hq); [done | done | |].
    { fold d. rewrite fexp_eq. unfold emax, prec. lia. }
    fold d in Herr, Hex, Hq.
    set (E := Z.max (fexp prec emax (d + e0)) e0) in *.
    exists q. split; [done|]. rewrite HT, HabsT.
    pose proof (round_error _ _ _ _ _ _ T Hq ltac:(reflexivity) Herr) as Hround.
    destruct (decide (E = e0)) as [HEe|HEne].
    + rewrite (Hex eq_refl HEe) in Hq. rewrite HEe in Hq.
      assert (q - T == 0)%Q as -> by (rewrite Hq; unfold T; ring).
      change (Qabs 0) with 0%Q. pose proof (bpow_pos (-1075)).
      pose proof (bpow_pos (-53)). unfold u53, eta.
      assert (0 <= bpow (-53) * (inject_Z m0 * bpow e0))%Q; [|lra].
      apply Qmult_le_0_compat; [lra|]. apply Qmult_le_0_compat; lra.
    + eapply Qle_trans; [exact Hround|]. apply (half_ulp_le E (d + e0)).
      { apply Qmult_le_0_compat; lra. }
      assert (E = Z.max (d + e0 - 53) (-1074)) as HE
        by (revert HEne; unfold E; rewrite fexp_eq; lia).
      destruct (Z.le_gt_cases E (-1074)) as [|HEbig]; [by left|right].
      split; [lia|].
      replace (d + e0 - 1) with ((d - 1) + e0) by lia. rewrite bpow_add.
      apply Qmult_le_compat_r; lra.
Qed.

(** The location of a quotient [q + k/nb] from the remainder [k]. *)
Lemma new_location_spec nb k q ρ :
  0 < nb → 0 ≤ k < nb →
  (ρ * inject_Z nb == inject_Z q * inject_Z nb + inject_Z k)%Q →
  inbetween q (new_location nb k) ρ.
Proof.
  intros Hnb Hk Hρ.
  assert (HN : (0 < inject_Z nb)%Q) by (by rewrite <- (Zlt_Qlt 0)).
  assert (HK : (0 <= inject_Z k ∧ inject_Z k < inject_Z nb)%Q)
    by (rewrite <- (Zle_Qle 0), <- Zlt_Qlt; lia).
  set (N := inject_Z nb) in *. set (K := inject_Z k) in *.
  set (f := (ρ - inject_Z q)%Q).
  assert (Hf : (f * N == K)%Q) by (unfold f; lra).
  assert (Hcmp : ∀ c, (c * N < K → c < f)%Q ∧ (K < c * N → f < c)%Q ∧
                      (c * N == K → f == c)%Q).
  { intros c. split_and!; intros Hc.
    - destruct (Qlt_le_dec c f) as [|Hle]; [done|].
      assert (f * N <= c * N)%Q by (apply Qmult_le_compat_r; lra). lra.
    - destruct (Qlt_le_dec f c) as [|Hle]; [done|].
      assert (c * N <= f * N)%Q by (apply Qmult_le_compat_r; lra). lra.
    - apply (Qmult_inj_r _ _ N); lra. }
  assert (Hlt2 : 2 * k < nb → (2 * K < N)%Q).
  { intros H. unfold K, N. rewrite Zlt_Qlt, inject_Z_mult in H. exact H. }
  assert (Hgt2 : nb < 2 * k → (N < 2 * K)%Q).
  { intros H. unfold K, N. rewrite Zlt_Qlt, inject_Z_mult in H. exact H. }
  assert (Heq2 : 2 * k = nb → (2 * K == N)%Q).
  { intros H. unfold K, N. rewrite <- H, inject_Z_mult. reflexivity. }
  assert (Hzero : k = 0 → inbetween q loc_Exact ρ).
  { intros Hk0. assert (f == 0)%Q; [|cbn [inbetween]; unfold f in *; lra].
    apply (Hcmp 0%Q). unfold K. rewrite Hk0. change (inject_Z 0) with 0%Q. lra. }
  assert (Hpos : k ≠ 0 → (0 < f ∧ f < 1)%Q).
  { intros Hk0. assert (HK0 : (0 < K)%Q) by (unfold K; rewrite <- (Zlt_Qlt 0); lia).
    split; [apply (Hcmp 0%Q)|apply (Hcmp 1%Q)]; lra. }
  unfold new_location, new_location_even, new_location_odd.
  destruct (Z.even nb) eqn:Heven; destruct (Z.eqb_spec k 0) as [Hk0|Hk0]; auto;
    destruct (Hpos Hk0) as [Hf0 Hf1].
  - destruct (Z.compare_spec (2 * k) nb) as [Heq|Hlt|Hgt]; cbn [inbetween].
    + assert (f == 1 # 2)%Q; [|unfold f in *; lra].
      apply (Hcmp (1 # 2)%Q). specialize (Heq2 Heq). lra.
    + assert (f < 1 # 2)%Q; [|unfold f in *; lra].
      apply (Hcmp (1 # 2)%Q). specialize (Hlt2 Hlt). lra.
    + assert ((1 # 2) < f)%Q; [|unfold f in *; lra].
      apply (Hcmp (1 # 2)%Q). specialize (Hgt2 Hgt). lra.
  - assert (2 * k ≠ nb).
    { intros <-. rewrite Z.even_mul in Heven. done. }
    destruct (Z.compare_spec (2 * k + 1) nb) as [Heq|Hlt|Hgt]; cbn [inbetween].
    + assert (f < 1 # 2)%Q; [|unfold f in *; lra].
      apply (Hcmp (1 # 2)%Q). specialize (Hlt2 ltac:(lia)). lra.
    + assert (f < 1 # 2)%Q; [|unfold f in *; lra].
      apply (Hcmp (1 # 2)%Q). specialize (Hlt2 ltac:(lia)). lra.
    + assert ((1 # 2) < f)%Q; [|unfold f in *; lra].
      apply (Hcmp (1 # 2)%Q). specialize (Hgt2 ltac:(lia)). lra.
Qed.

(** The quotient of two finite floats, when the divisor is not zero and
    the quotient does not overflow, is finite and off the exact quotient [T]
    by at most 2^-53 of it plus 2^-1075. *)
Lemma SFdiv_error x y qx qy T :
  SFvalue x = Some qx → SFvalue y = Some qy →
  (T * qy == qx)%Q → ¬ (qy == 0)%Q →
  (Qabs T < bpow 900)%Q →
  ∃ q, SFvalue (SFdiv prec emax x y) = Some q ∧
       (Qabs (q - T) <= u53 * Qabs T + eta)%Q.
Proof.
  destruct x as [sx|sx| |sx mx ex], y as [sy|sy| |sy my ey]; cbn [SFvalue]; try done;
    intros [= <-] [= <-] HT Hy Hbound; try (by destruct Hy).
  { exists 0%Q. split; [done|].
    assert (T == 0)%Q as ->.
    { apply (Qmult_inj_r _ _ _ Hy). rewrite HT. ring. }
    change (0 <= u53 * 0 + eta)%Q. pose proof (bpow_pos (-1075)). unfold eta. lra. }
  fold (bpow ex) in HT. fold (bpow ey) in HT, Hy.
  change (if sx then (-1)%Q else 1%Q) with (sgn sx) in HT.
  change (if sy then (-1)%Q else 1%Q) with (sgn sy) in HT, Hy.
  cbn [SFdiv]. unfold SFdiv_core_binary.
  set (d1 := Zdigits2 (Z.pos mx)). set (d2 := Zdigits2 (Z.pos my)).
  set (D := d1 + ex - (d2 + ey)).
  set (e' := Z.min (fexp prec emax D) (ex - ey)).
  set (s := ex - ey - e').
  assert (Hs : 0 ≤ s) by (unfold s, e'; lia).
  set (m' := match s with Z.pos _ => Z.shiftl (Z.pos mx) s | 0 => Z.pos mx | Z.neg _ => 0 end).
  assert (Hm' : m' = Z.pos mx * 2 ^ s).
  { unfold m'. destruct s as [|p|p] eqn:Hseq; [lia | | lia].
    by rewrite Z.shiftl_mul_pow2. }
  pose proof (Z_div_mod m' (Z.pos my) ltac:(done)) as Hdiv.
  destruct (Z.div_eucl m' (Z.pos my)) as [q r]. destruct Hdiv as [Hqr Hr].
  assert (Hm'pos : 0 < m') by (rewrite Hm'; apply Z.mul_pos_pos; [done | by apply Z.pow_pos_nonneg]).
  assert (Hq : 0 ≤ q) by nia.
  set (MX := inject_Z (Z.pos mx)) in *. set (MY := inject_Z (Z.pos my)) in *.
  assert (HMX : (1 <= MX)%Q) by (unfold MX; rewrite <- (Zle_Qle 1); lia).
  assert (HMY : (1 <= MY)%Q) by (unfold MY; rewrite <- (Zle_Qle 1); lia).
  set (ρ := (inject_Z m' / MY)%Q).
  assert (Hρ : (ρ * MY == inject_Z m')%Q) by (unfold ρ; field; lra).
  assert (HM' : (inject_Z m' == MX * bpow s)%Q).
  { rewrite Hm', inject_Z_mult, bpow_Z by done. reflexivity. }
  assert (Hin : inbetween q (new_location (Z.pos my) r) ρ).
  { apply new_location_spec; [done | done |].
    fold MY. rewrite Hρ, Hqr, inject_Z_plus, inject_Z_mult. fold MY. ring. }
  destruct (inbetween_bounds _ _ _ Hin) as [Hρlo Hρhi].
  assert (Hρ0 : (0 <= ρ)%Q).
  { assert (0 <= inject_Z q)%Q by (by rewrite <- (Zle_Qle 0)). lra. }
  assert (HTρ : (T == sgn (xorb sx sy) * ρ * bpow e')%Q).
  { apply (Qmult_inj_r _ _ _ Hy). rewrite HT.
    assert (sgn (xorb sx sy) * ρ * bpow e' * (sgn sy * MY * bpow ey) ==
            sgn (xorb sx sy) * sgn sy * (ρ * MY) * (bpow e' * bpow ey))%Q as -> by ring.
    rewrite Hρ, HM', <- bpow_add.
    replace ex with (s + (e' + ey)) at 1 by (unfold s; lia). rewrite bpow_add.
    destruct sx, sy; cbn [xorb sgn]; ring. }
  pose proof (bpow_pos e') as He'pos.
  assert (HabsT : (Qabs T == ρ * bpow e')%Q).
  { rewrite HTρ, <- Qmult_assoc, Qabs_sgn, Qabs_pos; [done|].
    apply Qmult_le_0_compat; lra. }
  rewrite HabsT in Hbound.
  (* the exact quotient is at least 2^(D-1) *)
  assert (HlowD : (bpow (D - 1) <= ρ * bpow e')%Q).
  { pose proof (Zdigits2_lower (Z.pos mx) ltac:(done)) as Hl1. fold d1 MX in Hl1.
    pose proof (Zdigits2_upper (Z.pos my) ltac:(done)) as Hu2. fold d2 MY in Hu2.
    pose proof (bpow_pos ey). pose proof (bpow_pos ex).
    pose proof (bpow_pos (- (d2 + ey))) as Hneg.
    assert (H1 : (ρ * bpow e' * (MY * bpow ey) == MX * bpow ex)%Q).
    { assert (ρ * bpow e' * (MY * bpow ey) == (ρ * MY) * (bpow e' * bpow ey))%Q as ->
        by ring.
      rewrite Hρ, HM', <- bpow_add.
      assert (bpow ex == bpow s * bpow (e' + ey))%Q as ->; [|ring].
      rewrite <- bpow_add. by replace (s + (e' + ey)) with ex by (unfold s; lia). }
    assert (H2 : (MY * bpow ey <= bpow (d2 + ey))%Q).
    { rewrite bpow_add. apply Qmult_le_compat_r; lra. }
    assert (H3 : (bpow (d1 - 1 + ex) <= MX * bpow ex)%Q).
    { rewrite bpow_add. apply Qmult_le_compat_r; lra. }
    assert (H4 : (ρ * bpow e' * (MY * bpow ey) <= ρ * bpow e' * bpow (d2 + ey))%Q).
    { rewrite !(Qmult_comm (ρ * bpow e')). apply Qmult_le_compat_r; [done|].
      apply Qmult_le_0_compat; lra. }
    assert (H5 : (bpow (d1 - 1 + ex) * bpow (- (d2 + ey)) <=
                  ρ * bpow e' * bpow (d2 + ey) * bpow (- (d2 + ey)))%Q).
    { apply Qmult_le_compat_r; lra. }
    rewrite <- bpow_add, <- Qmult_assoc, bpow_opp, Qmult_1_r in H5.
    by replace (d1 - 1 + ex + - (d2 + ey)) with (D - 1) in H5 by (unfold D; lia). }
  assert (HD : D - 1 < 900) by (apply bpow_lt_inv; lra).
  set (dq := Zdigits2 q).
  assert (Hdq : 0 < q → (bpow (dq + e' - 1) <= ρ * bpow e')%Q).
  { intros Hq0. pose proof (Zdigits2_lower q Hq0) as Hl. fold dq in Hl.
    replace (dq + e' - 1) with ((dq - 1) + e') by lia. rewrite bpow_add.
    apply Qmult_le_compat_r; lra. }
  assert (Hdq0 : q = 0 → dq = 0) by (by intros ->).
  assert (Hdqe : dq + e' - 1 < 900 ∨ dq = 0).
  { destruct (decide (q = 0)) as [Hq0|Hq0]; [by right; apply Hdq0|left].
    apply bpow_lt_inv. specialize (Hdq ltac:(lia)). lra. }
  assert (He' : e' ≤ Z.max (D - 53) (-1074)) by (unfold e'; rewrite fexp_eq; lia).
  destruct (binary_round_aux_spec (xorb sx sy) q e' (new_location (Z.pos my) r) ρ)
    as (m'' & qv & Hm'' & Herr & _ & Hval & Hqv); [done | done | |].
  { fold dq. rewrite fexp_eq. unfold emax, prec. lia. }
  fold dq in Herr, Hqv.
  set (E := Z.max (fexp prec emax (dq + e')) e') in *.
  exists qv. split; [done|].
  pose proof (round_error _ _ _ _ _ _ T Hqv HTρ Herr) as Hround.
  rewrite HabsT. eapply Qle_trans; [exact Hround|].
  assert (HE : E = Z.max (Z.max (dq + e' - 53) (-1074)) e') by (unfold E; by rewrite fexp_eq).
  assert (HA : (0 <= ρ * bpow e')%Q) by (apply Qmult_le_0_compat; lra).
  destruct (Z.le_gt_cases E (-1074)) as [|HEbig]; [by apply (half_ulp_le E 0); [|left]|].
  destruct (decide (E = e')) as [HEe|HEne].
  - apply (half_ulp_le E D); [done|right]. split; [lia | done].
  - assert (0 < q).
    { destruct (decide (q = 0)) as [Hq0|]; [|lia]. specialize (Hdq0 Hq0). lia. }
    apply (half_ulp_le E (dq + e')); [done|right]. split; [lia | by apply Hdq].
Qed.

Lemma mul_error (x y : float) qx qy :
  value x = Some qx → value y = Some qy →
  (Qabs (qx * qy) < bpow 900)%Q →
  ∃ q, value (x * y) = Some q ∧
       (Qabs (q - qx * qy) <= u53 * Qabs (qx * qy) + eta)%Q.
Proof. unfold value. rewrite mul_spec. apply SFmul_error. Qed.

Lemma div_error (x y : float) qx qy T :
  value x = Some qx → value y = Some qy →
  (T * qy == qx)%Q → ¬ (qy == 0)%Q →
  (Qabs T < bpow 900)%Q →
  ∃ q, value (x / y) = Some q ∧
       (Qabs (q - T) <= u53 * Qabs T + eta)%Q.
Proof. unfold value. rewrite div_spec. apply SFdiv_error. Qed.

Lemma Qabs_mult_pos x y : (0 <= y)%Q → (Qabs (x * y) == Qabs x * y)%Q.
Proof. intros Hy. by rewrite Qabs_Qmult, (Qabs_pos y). Qed.

Lemma eta_small : (0 < eta ∧ eta <= 1 # 100000000000000000000)%Q.
Proof.
  split; [apply bpow_pos|]. unfold eta.
  apply Qle_trans with (bpow (-70)); [apply bpow_le; lia|]. by vm_compute.
Qed.

Lemma bpow_900_big : (100000000000000000000 <= bpow 900)%Q.
Proof.
  apply Qle_trans with (bpow 70); [by vm_compute | apply bpow_le; lia].
Qed.

(** An error [e] on a product [P] with [|P| <= x * Mq], divided by [Mq]. *)
Lemma scaled_error e P x Mq iM :
  (0 < iM)%Q → (iM <= 1)%Q → (Mq * iM == 1)%Q → (0 <= x)%Q →
  (Qabs e <= u53 * Qabs P + eta)%Q →
  (Qabs P <= x * Mq)%Q →
  (Qabs (e * iM) <= u53 * x + eta)%Q.
Proof.
  intros HiM0 HiM1 HMi Hx He HP.
  destruct eta_small as [Heta0 _].
  assert (Hu : (0 < u53)%Q) by apply bpow_pos.
  rewrite Qabs_mult_pos by lra.
  assert (Qabs e * iM <= (u53 * (x * Mq) + eta) * iM)%Q as H1.
  { apply Qmult_le_compat_r; [|lra].
    assert (u53 * Qabs P <= u53 * (x * Mq))%Q; [|lra].
    rewrite !(Qmult_comm u53). apply Qmult_le_compat_r; lra. }
  assert ((u53 * (x * Mq) + eta) * iM == u53 * x * (Mq * iM) + eta * iM)%Q as H2 by ring.
  rewrite H2, HMi in H1.
  assert (eta * iM <= eta * 1)%Q as H3.
  { rewrite !(Qmult_comm eta). apply Qmult_le_compat_r; lra. }
  lra.
Qed.

(** Grams to millimoles and back in binary64: four roundings, each off by
    at most 2^-53 of its exact result. *)
Lemma round_trip_error (g M : float) G Mq :
  value g = Some G → value M = Some Mq →
  (Qabs G <= 1000000)%Q → (1 <= Mq)%Q → (Mq <= 1000000)%Q →
  ∃ qd, value (1000 * (g / 1000 * M) / M)%float = Some qd ∧
        (Qabs (qd - G) <= tol9)%Q.
Proof.
  intros Hg HM HG HM1 HM2.
  destruct eta_small as [Heta0 Heta]. pose proof bpow_900_big as Hbig.
  assert (HK : ∃ K, value 1000 = Some K ∧ (K == 1000)%Q)
    by (eexists; split; reflexivity).
  destruct HK as (K & HK & HKeq).
  pose proof (Qabs_nonneg G) as HG0.
  (* a = g / 1000 *)
  set (T1 := (G * (1 # 1000))%Q).
  assert (HT1 : (Qabs T1 == Qabs G * (1 # 1000))%Q) by (by apply Qabs_mult_pos).
  destruct (div_error g 1000 G K T1 Hg HK) as (qa & Hqa & Ha).
  { rewrite HKeq. unfold T1. ring. }
  { rewrite HKeq. lra. }
  { rewrite HT1. lra. }
  change u53 with (1 # 9007199254740992)%Q in Ha.
  pose proof (Qabs_nonneg T1) as HT10.
  assert (Hqa1 : (Qabs qa <= 1001)%Q).
  { apply Qabs_Qle_condition in Ha. pose proof (Qabs_Qle_condition T1 (Qabs T1)) as [Ht _].
    specialize (Ht ltac:(lra)). apply Qabs_Qle_condition. lra. }
  pose proof (Qabs_nonneg qa) as Hqa0.
  (* b = a * M *)
  assert (HP : (Qabs (qa * Mq) == Qabs qa * Mq)%Q) by (apply Qabs_mult_pos; lra).
  assert (HPle : (Qabs qa * Mq <= 1001 * 1000000)%Q).
  { apply Qle_trans with (1001 * Mq)%Q; [apply Qmult_le_compat_r; lra | lra]. }
  destruct (mul_error (g / 1000) M qa Mq Hqa HM) as (qb & Hqb & Hb).
  { rewrite HP. lra. }
  (* the inverse of the molar mass *)
  set (iM := (/ Mq)%Q).
  assert (HMi : (Mq * iM == 1)%Q) by (unfold iM; field; lra).
  assert (HiM0 : (0 < iM)%Q) by (apply Qinv_lt_0_compat; lra).
  assert (HiM1 : (iM <= 1)%Q).
  { assert (iM * 1 <= iM * Mq)%Q; [|lra].
    rewrite !(Qmult_comm iM). apply Qmult_le_compat_r; lra. }
  set (e2 := (qb - qa * Mq)%Q) in *. set (E2 := (e2 * iM)%Q).
  assert (HE2 : (Qabs E2 <= u53 * Qabs qa + eta)%Q).
  { apply (scaled_error e2 (qa * Mq) (Qabs qa) Mq iM); try done. rewrite HP. lra. }
  change u53 with (1 # 9007199254740992)%Q in HE2.
  pose proof (Qabs_nonneg E2) as HE20.
  assert (Hqb_eq : (qb == (qa + E2) * Mq)%Q).
  { unfold E2, e2.
    assert ((qa + (qb - qa * Mq) * iM) * Mq ==
            qa * Mq + (qb - qa * Mq) * (Mq * iM))%Q as -> by ring.
    rewrite HMi. ring. }
  set (x3 := (1000 * (Qabs qa + Qabs E2))%Q).
  assert (HKb : (Qabs (K * qb) <= x3 * Mq)%Q).
  { rewrite HKeq, Hqb_eq.
    assert (1000 * ((qa + E2) * Mq) == (1000 * (qa + E2)) * Mq)%Q as -> by ring.
    rewrite Qabs_mult_pos by lra. apply Qmult_le_compat_r; [|lra].
    rewrite Qabs_Qmult. change (Qabs 1000) with 1000%Q. unfold x3.
    pose proof (Qabs_triangle qa E2). lra. }
  assert (Hx3 : (0 <= x3 ∧ x3 <= 1000 * 1002)%Q) by (unfold x3; lra).
  (* c = 1000 * b *)
  destruct (mul_error 1000 (g / 1000 * M) K qb HK Hqb) as (qc & Hqc & Hc).
  { apply Qle_lt_trans with (x3 * Mq)%Q; [done|].
    apply Qle_lt_trans with (1000 * 1002 * 1000000)%Q; [|lra].
    apply Qle_trans with ((1000 * 1002) * Mq)%Q; [apply Qmult_le_compat_r; lra | lra]. }
  set (e3 := (qc - K * qb)%Q) in *. set (E3 := (e3 * iM)%Q).
  assert (HE3 : (Qabs E3 <= u53 * x3 + eta)%Q).
  { apply (scaled_error e3 (K * qb) x3 Mq iM); try done. lra. }
  change u53 with (1 # 9007199254740992)%Q in HE3.
  pose proof (Qabs_nonneg E3) as HE30.
  (* d = c / M *)
  set (T4 := (qc * iM)%Q).
  assert (HT4 : (T4 == 1000 * (qa + E2) + E3)%Q).
  { unfold T4, E3, e3.
    assert (qc * iM == (qc - K * qb) * iM + K * qb * iM)%Q as -> by ring.
    rewrite HKeq, Hqb_eq.
    assert (1000 * ((qa + E2) * Mq) * iM == 1000 * (qa + E2) * (Mq * iM))%Q as -> by ring.
    rewrite HMi. ring. }
  assert (HT4abs : (Qabs T4 <= x3 + Qabs E3)%Q).
  { rewrite HT4. eapply Qle_trans; [apply Qabs_triangle|].
    rewrite Qabs_Qmult. change (Qabs 1000) with 1000%Q.
    pose proof (Qabs_triangle qa E2). unfold x3. lra. }
  destruct (div_error (1000 * (g / 1000 * M)) M qc Mq T4 Hqc HM) as (qd & Hqd & Hd).
  { unfold T4. rewrite <- Qmult_assoc, (Qmult_comm iM), HMi. ring. }
  { lra. }
  { lra. }
  change u53 with (1 # 9007199254740992)%Q in Hd.
  exists qd. split; [done|].
  pose proof (Qabs_nonneg T4) as HT40.
  apply Qabs_Qle_condition in Ha, Hd.
  pose proof (Qabs_Qle_condition E2 (Qabs E2)) as [HE2' _]. specialize (HE2' ltac:(lra)).
  pose proof (Qabs_Qle_condition E3 (Qabs E3)) as [HE3' _]. specialize (HE3' ltac:(lra)).
  apply Qabs_Qle_condition. unfold tol9, x3, T1 in *. lra.
Qed.

(** ** The medium after lines 30-39 *)

Lemma assign_medium_assigned mg mo (med : gmap string num) :
  assign_medium mg mo med !! "EX_glc_e" = Some (PyFloat mg) ∧
  assign_medium mg mo med !! "EX_ocdcea_e" = Some (PyFloat mo) ∧
  assign_medium mg mo med !! "EX_glyc_e" = Some (PyInt 0) ∧
  assign_medium mg mo med !! "EX_h2o_e" = Some (PyInt 10000) ∧
  assign_medium mg mo med !! "EX_h_e" = Some (PyInt 10000) ∧
  assign_medium mg mo med !! "EX_nh4_e" = Some (PyInt 10000) ∧
  assign_medium mg mo med !! "EX_o2_e" = Some (PyInt 10000) ∧
  assign_medium mg mo med !! "EX_pi_e" = Some (PyInt 10000) ∧
  assign_medium mg mo med !! "EX_so4_e" = Some (PyInt 10000) ∧
  assign_medium mg mo med !! "trehalose_c_tp" = Some (PyInt 0).
Proof. unfold assign_medium. repeat split; by simplify_map_eq. Qed.

Lemma assign_medium_frame mg mo (med : gmap string num) (key : string) :
  key ∉ assigned_keys →
  assign_medium mg mo med !! key = med !! key.
Proof.
  unfold assigned_keys, assign_medium. intros Hk.
  rewrite !lookup_insert_ne; [done | intros <-; apply Hk; set_solver ..].
Qed.

(** ** One sweep point, and the loop *)

Section SweepFacts.

Context {Extra : Type}.
Variable fba : Model Extra → string → string → string → Model Extra * Result Solution.
Variable float_repr : float → string.

(** The per-point function in one piece: it writes the medium, calls the
    solver once on the model so configured, and converts the answer. *)
Lemma point_unfold g o w :
  max_beta_carotene_production_from_oleic_acid fba float_repr g o w =
  let mg := (1000 * g / 180.16)%float in
  let mo := (1000 * o / 282.47)%float in
  let m1 := mkModel (assign_medium mg mo (medium (model w))) (extra (model w)) in
  let cs := constraints_string float_repr mg mo in
  let r := fba m1 "EX_caro_e" cs "maximize" in
  (point_result r.2,
   mkWorld r.1 (fba_log w ++ [mkFbaCall m1 "EX_caro_e" cs "maximize" r.2])).
Proof.
  unfold max_beta_carotene_production_from_oleic_acid, grams_to_mmol.
  rewrite !truediv_nonzero by reflexivity.
  unfold mbind, M_bind, lift, get_medium, set_medium, sd_fba, mret, M_ret.
  cbn -[assign_medium constraints_string float_of_int].
  destruct (fba _ _ _ _) as [m2 [s|e]];
    cbn -[assign_medium constraints_string float_of_int]; [|done].
  unfold mmol_to_grams. rewrite !truediv_nonzero by reflexivity.
  unfold getitem. destruct (fluxes s !! _); cbn -[float_of_int]; done.
Qed.

Lemma sweep_loop_cons val vals acc w :
  sweep_loop fba float_repr (val :: vals) acc w =
  let p := max_beta_carotene_production_from_oleic_acid fba float_repr
             (glucose_grams val) (oleic_acid_grams val) w in
  match p.1 with
  | Ok (g_beta_carotene, g_co2) =>
      sweep_loop fba float_repr vals
        (acc ++ [mkRow (glucose_grams val) (oleic_acid_grams val) g_beta_carotene g_co2])
        p.2
  | Raise e => (Raise e, p.2)
  end.
Proof.
  cbn [sweep_loop]. unfold mbind at 1, M_bind at 1.
  destruct (max_beta_carotene_production_from_oleic_acid _ _ _ _ _) as [[[b c]|e] w1]; done.
Qed.

(** What a run of the loop leaves behind: the calls it logged, one per
    step visited and in the order of the steps; on success one row per
    step, each from the call of its step; on failure the exception of the
    last call, all calls before it having succeeded. *)
Lemma sweep_loop_trace vals : ∀ acc w,
  ∃ calls,
    fba_log (sweep_loop fba float_repr vals acc w).2 = fba_log w ++ calls ∧
    Forall2 (λ val c, call_of_step float_repr val c ∧ call_answered fba c)
      (take (length calls) vals) calls ∧
    match (sweep_loop fba float_repr vals acc w).1 with
    | Ok t => ∃ rows, t = acc ++ rows ∧ Forall3 row_of_step vals calls rows
    | Raise e =>
        ∃ calls0 c, calls = calls0 ++ [c] ∧
          Forall (λ c, is_ok (point_result (call_outcome c)) = true) calls0 ∧
          point_result (call_outcome c) = Raise e
    end.
Proof.
  induction vals as [|val vals IH]; intros acc w.
  - exists []. cbn. rewrite app_nil_r. split_and!; [done | constructor |].
    exists []. rewrite app_nil_r. split; [done | constructor].
  - rewrite sweep_loop_cons, point_unfold. cbn zeta. cbn [fst snd].
    set (mg := (1000 * glucose_grams val / 180.16)%float).
    set (mo := (1000 * oleic_acid_grams val / 282.47)%float).
    set (m1 := mkModel _ _). set (cs := constraints_string _ _ _).
    set (r := fba m1 _ cs _).
    set (c0 := mkFbaCall m1 _ cs _ r.2).
    assert (Hc0 : call_of_step float_repr val c0 ∧ call_answered fba c0).
    { split; [|done]. exists mg, mo, (medium (model w)).
      rewrite !grams_to_mmol_nonzero by reflexivity. done. }
    destruct (point_result r.2) as [[b co2]|e] eqn:Hres.
    + destruct (IH (acc ++ [mkRow (glucose_grams val) (oleic_acid_grams val) b co2])
                  (mkWorld r.1 (fba_log w ++ [c0]))) as (calls & Hlog & Hcalls & Hend).
      exists (c0 :: calls). split_and!.
      * rewrite Hlog. cbn [fba_log]. by rewrite <- app_assoc.
      * cbn. by constructor.
      * destruct (sweep_loop _ _ _ _ _).1 as [t|e].
        -- destruct Hend as (rows & -> & Hrows).
           exists (mkRow (glucose_grams val) (oleic_acid_grams val) b co2 :: rows).
           split; [by rewrite <- app_assoc|]. constructor; [|done]. done.
        -- destruct Hend as (calls0 & c & -> & Hok & Hc).
           exists (c0 :: calls0), c. split_and!; [done| |done].
           constructor; [|done]. cbn. by rewrite Hres.
    + exists [c0]. split_and!; [done | cbn; constructor; [done | constructor] |].
      exists [], c0. split_and!; [done | constructor | done].
Qed.

End SweepFacts.

Section RunFacts.

Context {Extra : Type}.
Variable fba : Model Extra → string → string → string → Model Extra * Result Solution.
Variable float_repr : float → string.

(** A whole run of the generator, in terms of positions: call [i] is the
    call of step [i], and row [i] comes from call [i]. *)
Lemma generate_trace w :
  let run := generate_beta_carotene_yield_df fba float_repr w in
  let calls := calls_since w run.2 in
  fba_log run.2 = fba_log w ++ calls ∧
  (length calls ≤ 41)%nat ∧
  (∀ i c, calls !! i = Some c →
     call_of_step float_repr (Z.of_nat i) c ∧ call_answered fba c) ∧
  match run.1 with
  | Ok t =>
      length t = 41%nat ∧ length calls = 41%nat ∧
      ∀ i r, t !! i = Some r →
        ∃ c, calls !! i = Some c ∧ row_of_step (Z.of_nat i) c r
  | Raise e =>
      ∃ k c, length calls = S k ∧ calls !! k = Some c ∧
        point_result (call_outcome c) = Raise e ∧
        ∀ i c', (i < k)%nat → calls !! i = Some c' →
          is_ok (point_result (call_outcome c')) = true
  end.
Proof.
  intros run calls. subst run calls. unfold generate_beta_carotene_yield_df.
  destruct (sweep_loop_trace fba float_repr (seqZ 0 41) [] w)
    as (calls & Hlog & Hcalls & Hend).
  unfold calls_since. rewrite Hlog, drop_app_length.
  assert (Hlen : (length calls ≤ 41)%nat).
  { apply Forall2_length in Hcalls. rewrite length_take, length_seqZ in Hcalls. lia. }
  split_and!; [done | done | |].
  - intros i c Hc.
    destruct (Forall2_lookup_r _ _ _ _ _ Hcalls Hc) as (v & Hv & Hstep).
    apply lookup_take_Some in Hv as [Hv _].
    apply lookup_seqZ in Hv as [-> _]. by rewrite Z.add_0_l in Hstep.
  - destruct (sweep_loop _ _ _ _ _).1 as [t|e].
    + destruct Hend as (rows & -> & Hrows). cbn [app].
      pose proof (Forall3_length_lr _ _ _ _ Hrows) as Hl1.
      pose proof (Forall3_length_lm _ _ _ _ Hrows) as Hl2.
      rewrite length_seqZ in Hl1, Hl2. split_and!; [lia | lia |].
      intros i r Hr.
      destruct (Forall3_lookup_r _ _ _ _ _ _ Hrows Hr) as (v & c & Hv & Hc & Hrow).
      apply lookup_seqZ in Hv as [-> _]. rewrite Z.add_0_l in Hrow. eauto.
    + destruct Hend as (calls0 & c & -> & Hok & Hc).
      exists (length calls0), c. split_and!.
      * rewrite length_app. cbn. lia.
      * by rewrite lookup_app_r, Nat.sub_diag by lia.
      * done.
      * intros i c' Hi Hc'. rewrite lookup_app_l in Hc' by done.
        by eapply (Forall_lookup_1 _ _ _ _ Hok).
Qed.

(** The first two columns of a returned table do not depend on the solver. *)
Lemma generate_ok_amounts w t :
  (generate_beta_carotene_yield_df fba float_repr w).1 = Ok t →
  length t = 41%nat ∧
  ∀ i r, t !! i = Some r →
    g_glucose r = glucose_grams (Z.of_nat i) ∧
    g_oleic_acid r = oleic_acid_grams (Z.of_nat i).
Proof.
  intros Hrun. pose proof (generate_trace w) as (_ & _ & _ & Hend).
  rewrite Hrun in Hend. destruct Hend as (Hlen & _ & Hrows).
  split; [done|]. intros i r Hr.
  destruct (Hrows i r Hr) as (c & _ & Hg & Ho & _). done.
Qed.

End RunFacts.

(** A run returns a table as soon as the solver answers every call with a
    solution that has a CO2 entry. *)
Lemma generate_returns {Extra}
    (fba : Model Extra → string → string → string → Model Extra * Result Solution)
    (float_repr : float → string) (w : World Extra) :
  (∀ m obj constraints obj_sense, ∃ sol,
     (fba m obj constraints obj_sense).2 = Ok sol ∧
     is_Some (fluxes sol !! "EX_co2(e)")) →
  ∃ t, (generate_beta_carotene_yield_df fba float_repr w).1 = Ok t.
Proof.
  intros Hfba.
  pose proof (generate_trace fba float_repr w) as (_ & _ & Hcalls & Hend).
  cbv zeta in Hcalls, Hend.
  destruct (generate_beta_carotene_yield_df fba float_repr w).1 as [t|e]; [by exists t|].
  destruct Hend as (k & c & _ & Hc & Hres & _).
  destruct (Hcalls _ _ Hc) as [_ Hans]. red in Hans.
  destruct (Hfba (call_model c) (call_obj c) (call_constraints c) (call_obj_sense c))
    as (sol & Hsol & [co2 Hco2]).
  rewrite Hans, Hsol in Hres. cbn in Hres. by rewrite Hco2 in Hres.
Qed.

(** Checking a property of the 41 steps by running it on each. *)
Lemma steps_forallb (f : Z → bool) :
  forallb f (seqZ 0 41) = true → ∀ i, 0 ≤ i ≤ 40 → f i = true.
Proof.
  intros H i Hi. rewrite forallb_forall in H. apply H.
  apply list_elem_of_In, elem_of_seqZ. lia.
Qed.

(** ** The sweep table *)

(** The gram amounts of the 41 steps, as the floats the loop computes:
    strictly increasing in the step, and pinned at both ends. *)
Lemma glucose_grams_increasing i j :
  0 ≤ i → i < j → j ≤ 40 →
  (glucose_grams i <? glucose_grams j)%float = true.
Proof.
  intros Hi Hij Hj.
  pose proof (steps_forallb
    (λ i, forallb (λ j, implb (i <? j) (glucose_grams i <? glucose_grams j)%float)
            (seqZ 0 41))) as H.
  specialize (H ltac:(vm_compute; reflexivity) i ltac:(lia)). cbv beta in H.
  pose proof (steps_forallb _ H j ltac:(lia)) as H'. cbv beta in H'.
  assert ((i <? j) = true) as Hlt by (apply Z.ltb_lt; lia).
  by rewrite Hlt in H'.
Qed.

(** C1. Every table the sweep generator returns has exactly 41 rows; row
    [i], for every [i] from 0 to 40, has glucose grams [i * 0.025] and oleic
    acid grams [1 - i * 0.025]; the rows are in order of increasing glucose
    grams; row 0 is (0.0, 1.0) and row 40 is (1.0, 0.0). *)
Theorem C1_sweep_table {Extra}
    (fba : Model Extra → string → string → string → Model Extra * Result Solution)
    (float_repr : float → string) (w : World Extra) (t : DataFrame) :
  (generate_beta_carotene_yield_df fba float_repr w).1 = Ok t →
  length t = 41%nat ∧
  (∀ i, 0 ≤ i ≤ 40 →
     ∃ r, t !! Z.to_nat i = Some r ∧
       g_glucose r = (float_of_int i * 0.025)%float ∧
       g_oleic_acid r = (1 - float_of_int i * 0.025)%float) ∧
  (∀ i j ri rj, (i < j)%nat → t !! i = Some ri → t !! j = Some rj →
     (g_glucose ri <? g_glucose rj)%float = true) ∧
  (∃ r0 r40, t !! 0%nat = Some r0 ∧ t !! 40%nat = Some r40 ∧
     g_glucose r0 = 0%float ∧ g_oleic_acid r0 = 1%float ∧
     g_glucose r40 = 1%float ∧ g_oleic_acid r40 = 0%float).
Proof.
  intros Hrun. destruct (generate_ok_amounts _ _ _ _ Hrun) as [Hlen Hrows].
  assert (Hget : ∀ i, (i < 41)%nat → ∃ r, t !! i = Some r).
  { intros i Hi. apply lookup_lt_is_Some. lia. }
  split_and!.
  - done.
  - intros i Hi. destruct (Hget (Z.to_nat i) ltac:(lia)) as [r Hr].
    exists r. destruct (Hrows _ _ Hr) as [Hg Ho].
    rewrite Z2Nat.id in Hg, Ho by lia. done.
  - intros i j ri rj Hij Hi Hj.
    pose proof (lookup_lt_Some _ _ _ Hj) as Hj'.
    destruct (Hrows _ _ Hi) as [-> _]. destruct (Hrows _ _ Hj) as [-> _].
    apply glucose_grams_increasing; lia.
  - destruct (Hget 0%nat ltac:(lia)) as [r0 H0].
    destruct (Hget 40%nat ltac:(lia)) as [r40 H40].
    exists r0, r40.
    destruct (Hrows _ _ H0) as [-> ->]. destruct (Hrows _ _ H40) as [-> ->].
    split_and!; done.
Qed.

Lemma C1_sweep_table_witness :
  let run := generate_beta_carotene_yield_df (stub_fba 2 3) no_repr (fresh_world ()) in
  run.1 = Ok (table_of run.1) ∧ length (table_of run.1) = 41%nat.
Proof.
  assert (H : (generate_beta_carotene_yield_df (stub_fba 2 3) no_repr (fresh_world ())).1
              = Ok (table_of (generate_beta_carotene_yield_df (stub_fba 2 3) no_repr
                                (fresh_world ())).1))
    by (vm_compute; reflexivity).
  split; [exact H | exact (proj1 (C1_sweep_table _ _ _ _ H))].
Defined.

(** C2. At every step index from 0 to 40 the two gram amounts add up to 1.0
    within 1e-9, both as the exact sum of the two floats and as their float
    sum; so do the two amounts of every row of every table the sweep
    generator returns. *)
Theorem C2_grams_sum_to_one {Extra}
    (fba : Model Extra → string → string → string → Model Extra * Result Solution)
    (float_repr : float → string) (w : World Extra) :
  (∀ i, 0 ≤ i ≤ 40 →
     sum_near tol9 (glucose_grams i) (oleic_acid_grams i) 1 = true ∧
     within tol9 (glucose_grams i + oleic_acid_grams i) 1 = true) ∧
  (∀ t r, (generate_beta_carotene_yield_df fba float_repr w).1 = Ok t → r ∈ t →
     sum_near tol9 (g_glucose r) (g_oleic_acid r) 1 = true ∧
     within tol9 (g_glucose r + g_oleic_acid r) 1 = true).
Proof.
  assert (Hsteps : ∀ i, 0 ≤ i ≤ 40 →
     sum_near tol9 (glucose_grams i) (oleic_acid_grams i) 1 = true ∧
     within tol9 (glucose_grams i + oleic_acid_grams i) 1 = true).
  { intros i Hi. apply andb_prop.
    apply (steps_forallb (λ i,
      sum_near tol9 (glucose_grams i) (oleic_acid_grams i) 1 &&
      within tol9 (glucose_grams i + oleic_acid_grams i) 1)); [|done].
    vm_compute. reflexivity. }
  split; [done|].
  intros t r Hrun [i Hr]%list_elem_of_lookup.
  destruct (generate_ok_amounts _ _ _ _ Hrun) as [Hlen Hrows].
  pose proof (lookup_lt_Some _ _ _ Hr) as Hi.
  destruct (Hrows _ _ Hr) as [-> ->]. apply Hsteps. lia.
Qed.

Lemma C2_grams_sum_to_one_witness :
  let run := generate_beta_carotene_yield_df (stub_fba 2 3) no_repr (fresh_world ()) in
  run.1 = Ok (table_of run.1) ∧
  ∀ r, r ∈ table_of run.1 →
    sum_near tol9 (g_glucose r) (g_oleic_acid r) 1 = true ∧
    within tol9 (g_glucose r + g_oleic_acid r) 1 = true.
Proof.
  assert (H : (generate_beta_carotene_yield_df (stub_fba 2 3) no_repr (fresh_world ())).1
              = Ok (table_of (generate_beta_carotene_yield_df (stub_fba 2 3) no_repr
                                (fresh_world ())).1))
    by (vm_compute; reflexivity).
  split; [exact H|].
  intros r Hr.
  exact (proj2 (C2_grams_sum_to_one (stub_fba 2 3) no_repr (fresh_world ())) _ r H Hr).
Defined.

(** C3. With a solver that answers every call with objective value [V] and
    CO2 flux [C], the sweep generator returns a table of 41 rows, and every
    row has beta-carotene grams [V / 1000 * 536.87] and CO2 grams
    [C / 1000 * 44.01]: the same two values in all rows. *)
Theorem C3_stub_solver_rows {Extra}
    (fba : Model Extra → string → string → string → Model Extra * Result Solution)
    (float_repr : float → string) (V C : float) (w : World Extra) :
  (∀ m obj constraints obj_sense, ∃ sol,
     (fba m obj constraints obj_sense).2 = Ok sol ∧
     objective_value sol = V ∧ fluxes sol !! "EX_co2(e)" = Some C) →
  ∃ t, (generate_beta_carotene_yield_df fba float_repr w).1 = Ok t ∧
    length t = 41%nat ∧
    ∀ r, r ∈ t →
      g_beta_carotene r = (V / 1000 * 536.87)%float ∧
      g_co2 r = (C / 1000 * 44.01)%float.
Proof.
  intros Hstub.
  pose proof (generate_trace fba float_repr w) as (_ & _ & Hcalls & Hend).
  cbv zeta in Hcalls, Hend.
  destruct (generate_beta_carotene_yield_df fba float_repr w).1 as [t|e].
  - exists t. destruct Hend as (Hlen & _ & Hrows). split_and!; [done..|].
    intros r [i Hr]%list_elem_of_lookup.
    destruct (Hrows _ _ Hr) as (c & Hc & _ & _ & Hres).
    destruct (Hcalls _ _ Hc) as [_ Hans]. red in Hans.
    destruct (Hstub (call_model c) (call_obj c) (call_constraints c) (call_obj_sense c))
      as (sol & Hsol & HV & HC).
    rewrite Hans, Hsol in Hres. cbn in Hres. rewrite HV, HC in Hres.
    by injection Hres as <- <-.
  - destruct Hend as (k & c & _ & Hc & Hres & _).
    destruct (Hcalls _ _ Hc) as [_ Hans]. red in Hans.
    destruct (Hstub (call_model c) (call_obj c) (call_constraints c) (call_obj_sense c))
      as (sol & Hsol & HV & HC).
    rewrite Hans, Hsol in Hres. cbn in Hres. by rewrite HC in Hres.
Qed.

Lemma C3_stub_solver_rows_witness :
  (∀ m obj constraints obj_sense, ∃ sol,
     (stub_fba 2 3 m obj constraints obj_sense).2 = Ok sol ∧
     objective_value sol = 2%float ∧ fluxes sol !! "EX_co2(e)" = Some 3%float) ∧
  ∃ t, (generate_beta_carotene_yield_df (stub_fba 2 3) no_repr (fresh_world ())).1 = Ok t ∧
    length t = 41%nat ∧
    ∀ r, r ∈ t →
      g_beta_carotene r = (2 / 1000 * 536.87)%float ∧
      g_co2 r = (3 / 1000 * 44.01)%float.
Proof.
  assert (H : ∀ (m : Model ()) (obj constraints obj_sense : string), ∃ sol,
     (stub_fba 2 3 m obj constraints obj_sense).2 = Ok sol ∧
     objective_value sol = 2%float ∧ fluxes sol !! "EX_co2(e)" = Some 3%float).
  { intros m obj constraints obj_sense. eexists. cbn. split_and!; reflexivity. }
  split; [exact H|].
  exact (C3_stub_solver_rows (stub_fba 2 3) no_repr 2 3 (fresh_world ()) H).
Defined.

(** ** One call of the per-point function *)

Section PointFacts.

Context {Extra : Type}.
Variable fba : Model Extra → string → string → string → Model Extra * Result Solution.
Variable float_repr : float → string.

(** Whatever the inputs and the state, the per-point function calls the
    solver exactly once, on the model with its medium assigned. *)
Lemma point_call g o w :
  ∃ c,
    calls_since w
      (max_beta_carotene_production_from_oleic_acid fba float_repr g o w).2 = [c] ∧
    call_model c =
      mkModel (assign_medium (1000 * g / 180.16) (1000 * o / 282.47) (medium (model w)))
              (extra (model w)) ∧
    call_obj c = "EX_caro_e" ∧
    call_constraints c =
      constraints_string float_repr (1000 * g / 180.16) (1000 * o / 282.47) ∧
    call_obj_sense c = "maximize" ∧
    call_answered fba c ∧
    (max_beta_carotene_production_from_oleic_acid fba float_repr g o w).1
      = point_result (call_outcome c).
Proof.
  rewrite point_unfold. cbv zeta. cbn [fst snd]. unfold calls_since. cbn [fba_log].
  rewrite drop_app_length. eexists. split_and!; reflexivity.
Qed.

End PointFacts.

(** C6. Whatever the inputs and the prior state, the per-point function makes
    its solver call on a model whose medium holds the fixed entries (0 for
    EX_glyc_e and trehalose_c_tp, 10000 for EX_h2o_e, EX_h_e, EX_nh4_e,
    EX_o2_e, EX_pi_e and EX_so4_e) next to the two computed substrate
    bounds; and so does every solver call of a run of the sweep generator. *)
Theorem C6_sentinel_bounds {Extra}
    (fba : Model Extra → string → string → string → Model Extra * Result Solution)
    (float_repr : float → string) (w : World Extra) :
  (∀ g_glucose g_oleic_acid, ∃ c mmol_glucose mmol_oleic_acid,
     calls_since w (max_beta_carotene_production_from_oleic_acid fba float_repr
                      g_glucose g_oleic_acid w).2 = [c] ∧
     grams_to_mmol g_glucose 180.16 = Ok mmol_glucose ∧
     grams_to_mmol g_oleic_acid 282.47 = Ok mmol_oleic_acid ∧
     medium (call_model c) !! "EX_glc_e" = Some (PyFloat mmol_glucose) ∧
     medium (call_model c) !! "EX_ocdcea_e" = Some (PyFloat mmol_oleic_acid) ∧
     sentinel_bounds (medium (call_model c))) ∧
  (∀ i c,
     calls_since w (generate_beta_carotene_yield_df fba float_repr w).2 !! i = Some c →
     ∃ mmol_glucose mmol_oleic_acid,
       grams_to_mmol (glucose_grams (Z.of_nat i)) 180.16 = Ok mmol_glucose ∧
       grams_to_mmol (oleic_acid_grams (Z.of_nat i)) 282.47 = Ok mmol_oleic_acid ∧
       medium (call_model c) !! "EX_glc_e" = Some (PyFloat mmol_glucose) ∧
       medium (call_model c) !! "EX_ocdcea_e" = Some (PyFloat mmol_oleic_acid) ∧
       sentinel_bounds (medium (call_model c))).
Proof.
  split.
  - intros g o. destruct (point_call fba float_repr g o w) as (c & Hc & Hm & _).
    exists c, (1000 * g / 180.16)%float, (1000 * o / 282.47)%float.
    rewrite !grams_to_mmol_nonzero by reflexivity. rewrite Hm. cbn [medium].
    pose proof (assign_medium_assigned (1000 * g / 180.16) (1000 * o / 282.47)
                  (medium (model w))) as H.
    unfold sentinel_bounds. destruct_and!. split_and!; done.
  - intros i c Hc.
    pose proof (generate_trace fba float_repr w) as (_ & _ & Hcalls & _).
    destruct (Hcalls _ _ Hc) as [(mg & mo & prior & Hg & Ho & Hm & _) _].
    exists mg, mo. rewrite Hm.
    pose proof (assign_medium_assigned mg mo prior) as H.
    unfold sentinel_bounds. destruct_and!. split_and!; done.
Qed.

Lemma C6_sentinel_bounds_witness :
  let run := generate_beta_carotene_yield_df (stub_fba 2 3) no_repr (fresh_world ()) in
  ∃ c, calls_since (fresh_world ()) run.2 !! 5%nat = Some c ∧
    sentinel_bounds (medium (call_model c)).
Proof.
  intros run.
  assert (H : ∃ c, calls_since (fresh_world ()) run.2 !! 5%nat = Some c).
  { eexists. vm_compute. reflexivity. }
  destruct H as [c Hc]. exists c. split; [exact Hc|].
  destruct (proj2 (C6_sentinel_bounds (stub_fba 2 3) no_repr (fresh_world ())) 5%nat c Hc)
    as (mg & mo & _ & _ & _ & _ & Hs).
  exact Hs.
Defined.

(** C7. Whatever the inputs and the prior state, the per-point function
    calls the solver exactly once, with objective EX_caro_e, sense maximize,
    and the constraints string that sets EX_glc_e and EX_ocdcea_e equal to
    the negated millimoles it wrote into the medium; a run of the sweep
    generator that returns a table made 41 such calls, call [i] for step
    [i]. *)
Theorem C7_one_solver_call {Extra}
    (fba : Model Extra → string → string → string → Model Extra * Result Solution)
    (float_repr : float → string) (w : World Extra) :
  (∀ g_glucose g_oleic_acid, ∃ c mmol_glucose mmol_oleic_acid,
     calls_since w (max_beta_carotene_production_from_oleic_acid fba float_repr
                      g_glucose g_oleic_acid w).2 = [c] ∧
     medium (call_model c) !! "EX_glc_e" = Some (PyFloat mmol_glucose) ∧
     medium (call_model c) !! "EX_ocdcea_e" = Some (PyFloat mmol_oleic_acid) ∧
     call_obj c = "EX_caro_e" ∧
     call_obj_sense c = "maximize" ∧
     call_constraints c =
       "EX_glc_e = " +:+ float_repr (- mmol_glucose)%float +:+
       ", EX_ocdcea_e = " +:+ float_repr (- mmol_oleic_acid)%float) ∧
  (∀ t, (generate_beta_carotene_yield_df fba float_repr w).1 = Ok t →
     let calls := calls_since w (generate_beta_carotene_yield_df fba float_repr w).2 in
     length calls = 41%nat ∧
     ∀ i c, calls !! i = Some c →
       ∃ mmol_glucose mmol_oleic_acid,
         grams_to_mmol (glucose_grams (Z.of_nat i)) 180.16 = Ok mmol_glucose ∧
         grams_to_mmol (oleic_acid_grams (Z.of_nat i)) 282.47 = Ok mmol_oleic_acid ∧
         call_obj c = "EX_caro_e" ∧
         call_obj_sense c = "maximize" ∧
         call_constraints c =
           "EX_glc_e = " +:+ float_repr (- mmol_glucose)%float +:+
           ", EX_ocdcea_e = " +:+ float_repr (- mmol_oleic_acid)%float).
Proof.
  split.
  - intros g o.
    destruct (point_call fba float_repr g o w) as (c & Hc & Hm & Hobj & Hcs & Hsense & _).
    exists c, (1000 * g / 180.16)%float, (1000 * o / 282.47)%float.
    rewrite Hm, Hcs. cbn [medium]. unfold constraints_string. rewrite !neg_one_mul.
    pose proof (assign_medium_assigned (1000 * g / 180.16) (1000 * o / 282.47)
                  (medium (model w))) as H.
    destruct_and!. split_and!; done.
  - intros t Hrun calls. subst calls.
    pose proof (generate_trace fba float_repr w) as (_ & _ & Hcalls & Hend).
    cbv zeta in Hend. rewrite Hrun in Hend. destruct Hend as (_ & Hlen & _).
    split; [done|]. intros i c Hc.
    destruct (Hcalls _ _ Hc) as [(mg & mo & prior & Hg & Ho & _ & Hobj & Hcs & Hsense) _].
    exists mg, mo. rewrite Hcs. unfold constraints_string. rewrite !neg_one_mul.
    done.
Qed.

Lemma C7_one_solver_call_witness :
  let run := generate_beta_carotene_yield_df (stub_fba 2 3) no_repr (fresh_world ()) in
  run.1 = Ok (table_of run.1) ∧
  length (calls_since (fresh_world ()) run.2) = 41%nat.
Proof.
  assert (H : (generate_beta_carotene_yield_df (stub_fba 2 3) no_repr (fresh_world ())).1
              = Ok (table_of (generate_beta_carotene_yield_df (stub_fba 2 3) no_repr
                                (fresh_world ())).1))
    by (vm_compute; reflexivity).
  split; [exact H|].
  exact (proj1 (proj2 (C7_one_solver_call (stub_fba 2 3) no_repr (fresh_world ())) _ H)).
Defined.

(** C10. The assignment of the medium leaves every other entry alone:
    whatever the inputs and the prior state, for every key other than the
    ten assigned ones the model handed to the solver holds in its medium
    what the model held before the call; the rest of the model is
    untouched too. *)
Theorem C10_medium_frame {Extra}
    (fba : Model Extra → string → string → string → Model Extra * Result Solution)
    (float_repr : float → string) (g_glucose g_oleic_acid : float)
    (w : World Extra) (key : string) :
  key ∉ assigned_keys →
  ∃ c,
    calls_since w (max_beta_carotene_production_from_oleic_acid fba float_repr
                     g_glucose g_oleic_acid w).2 = [c] ∧
    medium (call_model c) !! key = medium (model w) !! key ∧
    extra (call_model c) = extra (model w).
Proof.
  intros Hkey.
  destruct (point_call fba float_repr g_glucose g_oleic_acid w) as (c & Hc & Hm & _).
  exists c. rewrite Hm. cbn [medium extra].
  split_and!; [done | by apply assign_medium_frame | done].
Qed.

Lemma C10_medium_frame_witness :
  ("EX_co2_e" ∉ assigned_keys) ∧
  ∃ c : FbaCall (),
    calls_since (mkWorld (mkModel {[ "EX_co2_e" := PyInt 7 ]} ()) [])
      (max_beta_carotene_production_from_oleic_acid (stub_fba 2 3) no_repr 0.25 0.75
         (mkWorld (mkModel {[ "EX_co2_e" := PyInt 7 ]} ()) [])).2 = [c] ∧
    medium (call_model c) !! "EX_co2_e" = Some (PyInt 7).
Proof.
  assert (H : "EX_co2_e" ∉ assigned_keys).
  { unfold assigned_keys. rewrite !not_elem_of_cons. split_and!; try done.
    apply not_elem_of_nil. }
  split; [exact H|].
  destruct (C10_medium_frame (stub_fba 2 3) no_repr 0.25 0.75
              (mkWorld (mkModel {[ "EX_co2_e" := PyInt 7 ]} ()) []) "EX_co2_e" H)
    as (c & Hc & Hm & _).
  exists c. split; [exact Hc|]. rewrite Hm. reflexivity.
Defined.

(** C5 (amended). With the amounts of step 0 the per-point function hands
    the solver a medium whose glucose bound is 0.0 and whose oleic acid
    bound is 1000/282.47, which is 3.5402 to four decimals; with the amounts
    of step 40 the oleic acid bound is 0.0 and the glucose bound is
    1000/180.16, which is 5.5506 to four decimals. *)
Theorem C5_pure_substrate_bounds {Extra}
    (fba : Model Extra → string → string → string → Model Extra * Result Solution)
    (float_repr : float → string) (w : World Extra) :
  (∃ c,
     calls_since w (max_beta_carotene_production_from_oleic_acid fba float_repr
                      (glucose_grams 0) (oleic_acid_grams 0) w).2 = [c] ∧
     medium (call_model c) !! "EX_glc_e" = Some (PyFloat 0) ∧
     medium (call_model c) !! "EX_ocdcea_e" = Some (PyFloat (1000 / 282.47))) ∧
  near (1 # 20000) (1000 / 282.47) (35402 # 10000) = true ∧
  (∃ c,
     calls_since w (max_beta_carotene_production_from_oleic_acid fba float_repr
                      (glucose_grams 40) (oleic_acid_grams 40) w).2 = [c] ∧
     medium (call_model c) !! "EX_ocdcea_e" = Some (PyFloat 0) ∧
     medium (call_model c) !! "EX_glc_e" = Some (PyFloat (1000 / 180.16))) ∧
  near (1 # 20000) (1000 / 180.16) (55506 # 10000) = true.
Proof.
  split_and!; [| vm_compute; reflexivity | | vm_compute; reflexivity].
  - destruct (point_call fba float_repr (glucose_grams 0) (oleic_acid_grams 0) w)
      as (c & Hc & Hm & _).
    exists c. rewrite Hm. cbn [medium].
    pose proof (assign_medium_assigned (1000 * glucose_grams 0 / 180.16)
                  (1000 * oleic_acid_grams 0 / 282.47) (medium (model w))) as H.
    destruct_and!. split_and!; done.
  - destruct (point_call fba float_repr (glucose_grams 40) (oleic_acid_grams 40) w)
      as (c & Hc & Hm & _).
    exists c. rewrite Hm. cbn [medium].
    pose proof (assign_medium_assigned (1000 * glucose_grams 40 / 180.16)
                  (1000 * oleic_acid_grams 40 / 282.47) (medium (model w))) as H.
    destruct_and!. split_and!; done.
Qed.

(** The oleic acid bound of step 0 is not 3.5403 to four decimals: it
    differs from 3.5403 by more than 0.0001. *)
Lemma C5_not_3_5403 :
  ∃ c : FbaCall (),
    calls_since (fresh_world ())
      (max_beta_carotene_production_from_oleic_acid (stub_fba 2 3) no_repr
         (glucose_grams 0) (oleic_acid_grams 0) (fresh_world ())).2 = [c] ∧
    medium (call_model c) !! "EX_ocdcea_e" = Some (PyFloat (1000 / 282.47)) ∧
    near (1 # 10000) (1000 / 282.47) (35403 # 10000) = false.
Proof.
  destruct (point_call (stub_fba 2 3) no_repr (glucose_grams 0) (oleic_acid_grams 0)
              (fresh_world ())) as (c & Hc & Hm & _).
  exists c. rewrite Hm. cbn [medium].
  pose proof (assign_medium_assigned (1000 * glucose_grams 0 / 180.16)
                (1000 * oleic_acid_grams 0 / 282.47) (medium (model (fresh_world ())))) as H.
  destruct_and!. split_and!; [done | done | vm_compute; reflexivity].
Qed.

(** ** Failure of a sweep *)

Lemma solver_failed_result {Extra} (c : FbaCall Extra) :
  solver_failed c →
  point_result (call_outcome c) =
  Raise (match call_outcome c with Raise e => e | Ok _ => KeyError "EX_co2(e)" end).
Proof.
  unfold solver_failed, point_result.
  destruct (call_outcome c) as [sol|e]; [|done]. by intros ->.
Qed.

(** Infeasibility reported in the returned solution does not stop the
    sweep: the fourth call answers with a nan objective value and nan
    fluxes, and the run still makes its 41 calls and returns 41 rows, the
    fourth holding nan. *)
Lemma C8_infeasible_answer_not_fatal :
  let run := generate_beta_carotene_yield_df (infeasible_fba 3) no_repr (fresh_world 0%nat) in
  (∃ c sol, calls_since (fresh_world 0%nat) run.2 !! 3%nat = Some c ∧
            call_outcome c = Ok sol ∧ objective_value sol = nan ∧
            fluxes sol !! "EX_co2(e)" = Some nan) ∧
  run.1 = Ok (table_of run.1) ∧
  length (table_of run.1) = 41%nat ∧
  length (calls_since (fresh_world 0%nat) run.2) = 41%nat ∧
  ∃ r, table_of run.1 !! 3%nat = Some r ∧
       g_beta_carotene r = nan ∧ g_co2 r = nan.
Proof.
  intros run. split_and!.
  - eexists _, _. split_and!; [vm_compute; reflexivity | reflexivity..].
  - vm_compute. reflexivity.
  - vm_compute. reflexivity.
  - vm_compute. reflexivity.
  - eexists. split_and!; vm_compute; reflexivity.
Qed.

(** C8 (amended). If in a run of the sweep generator some solver call raises, or
    answers with a flux mapping that has no entry for EX_co2(e), the run
    returns no table: it raises, with the solver's exception or the
    KeyError of the missing entry, and the failed call is the last solver
    call of the run, so nothing is retried and no later step is tried. *)
Theorem C8_failure_is_fatal {Extra}
    (fba : Model Extra → string → string → string → Model Extra * Result Solution)
    (float_repr : float → string) (w : World Extra) (k : nat) (c : FbaCall Extra) :
  let run := generate_beta_carotene_yield_df fba float_repr w in
  calls_since w run.2 !! k = Some c →
  solver_failed c →
  run.1 = Raise (match call_outcome c with
                 | Raise e => e
                 | Ok _ => KeyError "EX_co2(e)"
                 end) ∧
  length (calls_since w run.2) = S k.
Proof.
  intros run Hc Hfail. subst run.
  apply solver_failed_result in Hfail.
  pose proof (generate_trace fba float_repr w) as (_ & _ & _ & Hend).
  cbv zeta in Hend.
  destruct (generate_beta_carotene_yield_df fba float_repr w).1 as [t|e].
  - destruct Hend as (Hlen & Hlenc & Hrows).
    pose proof (lookup_lt_Some _ _ _ Hc) as Hk.
    destruct (lookup_lt_is_Some_2 t k ltac:(lia)) as [r Hr].
    destruct (Hrows _ _ Hr) as (c' & Hc' & _ & _ & Hres).
    rewrite Hc in Hc'. injection Hc' as <-. by rewrite Hfail in Hres.
  - destruct Hend as (k0 & c0 & Hlen & Hc0 & Hres & Hbefore).
    pose proof (lookup_lt_Some _ _ _ Hc) as Hk.
    destruct (decide (k = k0)) as [->|Hne].
    + rewrite Hc in Hc0. injection Hc0 as <-.
      rewrite Hfail in Hres. injection Hres as <-. done.
    + specialize (Hbefore k c ltac:(lia) Hc). by rewrite Hfail in Hbefore.
Qed.

Lemma C8_failure_is_fatal_witness :
  let run := generate_beta_carotene_yield_df (failing_fba 3) no_repr (fresh_world 0%nat) in
  ∃ c, calls_since (fresh_world 0%nat) run.2 !! 3%nat = Some c ∧
    solver_failed c ∧
    run.1 = Raise (SolverError "infeasible") ∧
    length (calls_since (fresh_world 0%nat) run.2) = 4%nat.
Proof.
  intros run.
  assert (H : ∃ c, calls_since (fresh_world 0%nat) run.2 !! 3%nat = Some c ∧
                   solver_failed c ∧ call_outcome c = Raise (SolverError "infeasible")).
  { eexists. split_and!; [vm_compute; reflexivity | vm_compute; exact I | reflexivity]. }
  destruct H as (c & Hc & Hfail & Hout). exists c.
  destruct (C8_failure_is_fatal (failing_fba 3) no_repr (fresh_world 0%nat) 3 c Hc Hfail)
    as [Hrun Hlen].
  rewrite Hout in Hrun. split_and!; [exact Hc | exact Hfail | exact Hrun | exact Hlen].
Defined.

(** A missing CO2 entry at the fourth step: the run raises the KeyError
    after four solver calls. *)
Example sweep_missing_co2 :
  let run := generate_beta_carotene_yield_df (forgetful_fba 3) no_repr (fresh_world 0%nat) in
  run.1 = Raise (KeyError "EX_co2(e)") ∧
  length (calls_since (fresh_world 0%nat) run.2) = 4%nat.
Proof. split; vm_compute; reflexivity. Qed.

(** ** The plot *)

(** C9. For the two-row table [(0, 1, 0.1, 0.05), (1, 0, 0.9, 0.4)] the
    plotter draws, right after the beta-carotene yield series, a dashed gray
    line from (1, 0.1) to (0, 0.9): oleic acid grams as x, the first and the
    last row as its ends. *)
Theorem C9_reference_line :
  ∃ cmds,
    plot_beta_carotene_and_co2_yield two_row_table = Ok cmds ∧
    cmds !! 1%nat = Some (Plot [1; 0] [0.1; 0.9] (Some "o") "-" "blue"
                            (Some "Beta-Carotene Yield (g/g)"))%float ∧
    cmds !! 2%nat = Some (Plot [1; 0] [0.1; 0.9] None "--" "gray" None)%float.
Proof. eexists. split_and!; reflexivity. Qed.

(** ** The unit conversions *)

(** The round trip raises when the molar mass is zero, and at a molar mass
    of the program an amount of 123456789 comes back 1.5e-8 off. *)
Lemma C4_round_trip_fails :
  round_trip 1 0 = Raise ZeroDivisionError ∧
  round_trip 123456789 180.16 = Ok 123456789.00000001%float ∧
  within tol9 123456789.00000001 123456789 = false.
Proof. split_and!; vm_compute; reflexivity. Qed.

Lemma value_nonzero (M : float) Mq :
  value M = Some Mq → ¬ (Mq == 0)%Q → (M =? 0)%float = false.
Proof.
  unfold value. rewrite FloatAxioms.eqb_spec. change (Prim2SF 0) with (S754_zero false).
  destruct (Prim2SF M) as [s|s| |s m e]; cbn [SFvalue]; try done.
  - intros [= <-] H. by destruct H.
  - intros _ _. by destruct s.
Qed.

(** C4 (amended). For every finite gram amount [g] of magnitude at most 10^6
    and every molar mass [M] from 1 to 10^6, the round trip through the two
    conversions raises nothing and returns a float within 1e-9 of [g]. *)
Theorem C4_round_trip (g M : float) (G Mq : Q) :
  value g = Some G → value M = Some Mq →
  (Qabs G <= 1000000)%Q → (1 <= Mq)%Q → (Mq <= 1000000)%Q →
  ∃ r, round_trip g M = Ok r ∧ within tol9 r g = true.
Proof.
  intros Hg HM HG HM1 HM2.
  assert (HM0 : (M =? 0)%float = false) by (apply (value_nonzero M Mq); [done | lra]).
  destruct (round_trip_error g M G Mq Hg HM HG HM1 HM2) as (qd & Hqd & Herr).
  exists (1000 * (g / 1000 * M) / M)%float. split.
  - unfold round_trip. rewrite mmol_to_grams_eq. cbn.
    by rewrite grams_to_mmol_nonzero.
  - unfold within. rewrite Hqd, Hg. by apply Qle_bool_iff.
Qed.

Lemma C4_round_trip_witness :
  ∃ G Mq,
    value 0.25 = Some G ∧ value 180.16 = Some Mq ∧
    (Qabs G <= 1000000)%Q ∧ (1 <= Mq)%Q ∧ (Mq <= 1000000)%Q ∧
    ∃ r, round_trip 0.25 180.16 = Ok r ∧ within tol9 r 0.25 = true.
Proof.
  eexists _, _.
  assert (Hg : value 0.25 = Some (1 * inject_Z 4503599627370496 * 2 ^ (-54))%Q)
    by reflexivity.
  assert (HM : value 180.16 = Some (1 * inject_Z 6338816475523973 * 2 ^ (-45))%Q)
    by reflexivity.
  assert (H1 : (Qabs (1 * inject_Z 4503599627370496 * 2 ^ (-54)) <= 1000000)%Q)
    by (by vm_compute).
  assert (H2 : (1 <= 1 * inject_Z 6338816475523973 * 2 ^ (-45))%Q) by (by vm_compute).
  assert (H3 : (1 * inject_Z 6338816475523973 * 2 ^ (-45) <= 1000000)%Q)
    by (by vm_compute).
  split_and!; [exact Hg | exact HM | exact H1 | exact H2 | exact H3 |].
  exact (C4_round_trip 0.25 180.16 _ _ Hg HM H1 H2 H3).
Defined.

(** ** Further properties of the plotter *)

(** X1. The plotter fails exactly on the empty table, with the IndexError
    of the first-row lookup; on every other table it returns its ten calls. *)
Theorem X1_plot_fails_iff_empty (df : DataFrame) :
  (plot_beta_carotene_and_co2_yield df = Raise IndexError ↔ df = []) ∧
  (df ≠ [] → ∃ cmds, plot_beta_carotene_and_co2_yield df = Ok cmds ∧
                     length cmds = 10%nat).
Proof.
  unfold plot_beta_carotene_and_co2_yield, iloc_first, iloc_last.
  destruct df as [|r df]; [split; done|].
  destruct (last (r :: df)) as [l|] eqn:Hl.
  - split; [split; done|]. intros _. eexists. split; reflexivity.
  - by apply last_None in Hl.
Qed.

Lemma X1_plot_fails_iff_empty_witness :
  two_row_table ≠ [] ∧
  ∃ cmds, plot_beta_carotene_and_co2_yield two_row_table = Ok cmds ∧
          length cmds = 10%nat.
Proof.
  assert (H : two_row_table ≠ []) by done.
  split; [exact H | exact (proj2 (X1_plot_fails_iff_empty two_row_table) H)].
Defined.

(** X3. On a one-row table the plotter does not fail: each dashed line
    runs from the point of that row to the same point. *)
Theorem X3_plot_single_row (r : Row) :
  ∃ cmds, plot_beta_carotene_and_co2_yield [r] = Ok cmds ∧
    cmds !! 2%nat = Some (Plot [g_oleic_acid r; g_oleic_acid r]
                            [g_beta_carotene r; g_beta_carotene r]
                            None "--" "gray" None) ∧
    cmds !! 4%nat = Some (Plot [g_oleic_acid r; g_oleic_acid r]
                            [g_co2 r; g_co2 r] None "--" "gray" None).
Proof. eexists. split_and!; reflexivity. Qed.

(** X4. The plotter reads the oleic acid, yield and CO2 columns only: two
    tables whose rows agree on these three give the same calls, whatever
    their glucose grams. *)
Theorem X4_plot_ignores_glucose (df df' : DataFrame) :
  Forall2 same_plotted df df' →
  plot_beta_carotene_and_co2_yield df = plot_beta_carotene_and_co2_yield df'.
Proof.
  intros H.
  assert (Hcol : ∀ col : Row → float,
            (∀ r r', same_plotted r r' → col r = col r') → col <$> df = col <$> df').
  { intros col Hcol. induction H as [|r r' df df' Hr _ IH]; [done|].
    csimpl. by rewrite (Hcol _ _ Hr), IH. }
  assert (Ho : g_oleic_acid <$> df = g_oleic_acid <$> df')
    by (apply Hcol; by intros r r' (? & ? & ?)).
  assert (Hb : g_beta_carotene <$> df = g_beta_carotene <$> df')
    by (apply Hcol; by intros r r' (? & ? & ?)).
  assert (Hc : g_co2 <$> df = g_co2 <$> df')
    by (apply Hcol; by intros r r' (? & ? & ?)).
  clear Hcol.
  pose proof (Forall2_last _ _ _ H) as Hlast.
  unfold plot_beta_carotene_and_co2_yield, iloc_first, iloc_last.
  rewrite Ho, Hb, Hc.
  destruct H as [|r r' df df' (Hr1 & Hr2 & Hr3) _]; [done|].
  destruct Hlast as [l l' (Hl1 & Hl2 & Hl3)|]; [|done].
  cbn. by rewrite Hr1, Hr2, Hr3, Hl1, Hl2, Hl3.
Qed.

Lemma X4_plot_ignores_glucose_witness :
  Forall2 same_plotted two_row_table two_row_table_other_glucose ∧
  plot_beta_carotene_and_co2_yield two_row_table =
  plot_beta_carotene_and_co2_yield two_row_table_other_glucose.
Proof.
  assert (H : Forall2 same_plotted two_row_table two_row_table_other_glucose).
  { repeat constructor. }
  split; [exact H | exact (X4_plot_ignores_glucose _ _ H)].
Defined.

(** ** Further properties of the sweep *)

Lemma assign_medium_over mg mo (med med' : gmap string num) (key : string) :
  key ∈ assigned_keys →
  assign_medium mg mo med !! key = assign_medium mg mo med' !! key.
Proof.
  intros Hk.
  pose proof (assign_medium_assigned mg mo med) as H.
  pose proof (assign_medium_assigned mg mo med') as H'.
  unfold assigned_keys in Hk. set_unfold. destruct_and!.
  destruct_or!; subst key; congruence.
Qed.

Lemma assign_medium_absorbs (mg mo mg' mo' : float) (med : gmap string num) :
  assign_medium mg mo (assign_medium mg' mo' med) = assign_medium mg mo med.
Proof.
  apply map_eq. intros key.
  destruct (decide (key ∈ assigned_keys)) as [Hk|Hk].
  - by apply assign_medium_over.
  - by rewrite !assign_medium_frame.
Qed.

(** X5. Assigning the medium twice is assigning it once with the later
    bounds: nothing of an earlier call's ten entries survives the next
    call, and no key is added besides the ten. *)
Theorem X5_assign_medium_absorbs (mg mo mg' mo' : float) (med : gmap string num) :
  assign_medium mg mo (assign_medium mg' mo' med) = assign_medium mg mo med ∧
  ∀ key, is_Some (assign_medium mg mo med !! key) ↔
         key ∈ assigned_keys ∨ is_Some (med !! key).
Proof.
  split; [apply assign_medium_absorbs|].
  - intros key. destruct (decide (key ∈ assigned_keys)) as [Hk|Hk].
    + split; [by left|]. intros _.
      pose proof (assign_medium_assigned mg mo med) as H.
      unfold assigned_keys in Hk. set_unfold. destruct_and!.
      destruct_or!; subst key; eauto.
    + rewrite assign_medium_frame by done. split; [by right | by intros [?|?]].
Qed.

(** X7. Row [i] of a returned table is made from solver call [i]: that call
    was the call of step [i], it answered with a solution holding a CO2
    flux, and the row holds the conversions of that solution's objective
    value and CO2 flux. *)
Theorem X7_rows_from_calls {Extra}
    (fba : Model Extra → string → string → string → Model Extra * Result Solution)
    (float_repr : float → string) (w : World Extra) (t : DataFrame)
    (i : nat) (r : Row) :
  let run := generate_beta_carotene_yield_df fba float_repr w in
  run.1 = Ok t → t !! i = Some r →
  ∃ c sol co2_mmols,
    calls_since w run.2 !! i = Some c ∧
    call_of_step float_repr (Z.of_nat i) c ∧
    call_outcome c = Ok sol ∧
    fluxes sol !! "EX_co2(e)" = Some co2_mmols ∧
    g_beta_carotene r = (objective_value sol / 1000 * 536.87)%float ∧
    g_co2 r = (co2_mmols / 1000 * 44.01)%float.
Proof.
  intros run Hrun Hr. subst run.
  pose proof (generate_trace fba float_repr w) as (_ & _ & Hcalls & Hend).
  cbv zeta in Hcalls, Hend. rewrite Hrun in Hend.
  destruct Hend as (_ & _ & Hrows).
  destruct (Hrows _ _ Hr) as (c & Hc & _ & _ & Hres).
  destruct (Hcalls _ _ Hc) as [Hstep _].
  unfold point_result in Hres.
  destruct (call_outcome c) as [sol|e] eqn:Hout; [|done].
  destruct (fluxes sol !! "EX_co2(e)") as [co2|] eqn:Hco2; [|done].
  injection Hres as Hb Hco. exists c, sol, co2. split_and!; done.
Qed.

Lemma X7_rows_from_calls_witness :
  let run := generate_beta_carotene_yield_df echo_fba no_repr (fresh_world ()) in
  run.1 = Ok (table_of run.1) ∧
  ∃ r c sol,
    table_of run.1 !! 40%nat = Some r ∧
    calls_since (fresh_world ()) run.2 !! 40%nat = Some c ∧
    call_outcome c = Ok sol ∧
    g_beta_carotene r = (objective_value sol / 1000 * 536.87)%float.
Proof.
  intros run.
  assert (H : run.1 = Ok (table_of run.1)) by (vm_compute; reflexivity).
  assert (H40 : ∃ r, table_of run.1 !! 40%nat = Some r)
    by (eexists; vm_compute; reflexivity).
  destruct H40 as (r & Hr).
  split; [exact H|].
  destruct (X7_rows_from_calls echo_fba no_repr (fresh_world ()) _ 40 r H Hr)
    as (c & sol & co2 & Hc & _ & Hout & _ & Hb & _).
  exists r, c, sol. split_and!; [exact Hr | exact Hc | exact Hout | exact Hb].
Defined.

Section MediaFacts.

Context {Extra : Type}.
Variable fba : Model Extra → string → string → string → Model Extra * Result Solution.
Variable float_repr : float → string.
Hypothesis fba_preserving : preserving fba.

(** With a solver that leaves the model alone, every call of the loop
    finds the medium of its step over the medium the loop started with,
    and the loop leaves the model as its last call found it. *)
Lemma sweep_loop_media vals : ∀ acc w,
  ∃ calls,
    fba_log (sweep_loop fba float_repr vals acc w).2 = fba_log w ++ calls ∧
    Forall2 (λ val c, call_model c =
                      mkModel (step_medium val (medium (model w))) (extra (model w)))
      (take (length calls) vals) calls ∧
    model (sweep_loop fba float_repr vals acc w).2 =
      match last calls with
      | Some c => call_model c
      | None => model w
      end.
Proof using fba_preserving.
  induction vals as [|val vals IH]; intros acc w.
  - exists []. cbn. rewrite app_nil_r. split_and!; [done | constructor | done].
  - rewrite sweep_loop_cons, point_unfold. cbn zeta. cbn [fst snd].
    set (m1 := mkModel _ _). set (cs := constraints_string _ _ _).
    set (r := fba m1 _ cs _).
    set (c0 := mkFbaCall m1 _ cs _ r.2).
    assert (Hr1 : r.1 = m1) by apply fba_preserving.
    assert (Hc0 : call_model c0 =
                  mkModel (step_medium val (medium (model w))) (extra (model w)))
      by done.
    rewrite Hr1.
    destruct (point_result r.2) as [[b co2]|e].
    + destruct (IH (acc ++ [mkRow (glucose_grams val) (oleic_acid_grams val) b co2])
                  (mkWorld m1 (fba_log w ++ [c0]))) as (calls & Hlog & Hcalls & Hlast).
      cbn [model fba_log] in Hlog, Hcalls, Hlast.
      exists (c0 :: calls). split_and!.
      * rewrite Hlog. by rewrite <- app_assoc.
      * cbn. constructor; [done|].
        eapply Forall2_impl; [exact Hcalls|]. intros v c ->. unfold m1. cbn [medium extra].
        unfold step_medium. by rewrite assign_medium_absorbs.
      * rewrite Hlast. destruct calls as [|c calls]; [done|].
        rewrite last_cons_cons.
        destruct (last (c :: calls)) eqn:Hl; [done|]. by apply last_None in Hl.
    + exists [c0]. split_and!; [done | cbn; constructor; [done | constructor] | ].
      done.
Qed.

End MediaFacts.

(** X9. With a solver that leaves the model alone, every solver call of a
    run finds exactly the medium of its step assigned over the medium the
    run started with, and the rest of the model untouched: no bound of an
    earlier step is left.  After the run, returned or raised, the model
    holds the medium of the last step tried. *)
Theorem X9_media_of_a_run {Extra}
    (fba : Model Extra → string → string → string → Model Extra * Result Solution)
    (float_repr : float → string) (w : World Extra) :
  preserving fba →
  let run := generate_beta_carotene_yield_df fba float_repr w in
  let calls := calls_since w run.2 in
  (∀ i c, calls !! i = Some c →
     call_model c =
     mkModel (step_medium (Z.of_nat i) (medium (model w))) (extra (model w))) ∧
  ∃ k, length calls = S k ∧
    model run.2 =
      mkModel (step_medium (Z.of_nat k) (medium (model w))) (extra (model w)) ∧
    (is_ok run.1 = true → k = 40%nat).
Proof.
  intros Hpres run calls. subst run calls.
  pose proof (generate_trace fba float_repr w) as (Hlog0 & _ & _ & Hend).
  cbv zeta in Hlog0, Hend. unfold generate_beta_carotene_yield_df in *.
  destruct (sweep_loop_media fba float_repr Hpres (seqZ 0 41) [] w)
    as (calls & Hlog & Hcalls & Hlast).
  unfold calls_since in *. rewrite Hlog, drop_app_length in *.
  assert (Hall : ∀ i c, calls !! i = Some c →
     call_model c =
     mkModel (step_medium (Z.of_nat i) (medium (model w))) (extra (model w))).
  { intros i c Hc.
    destruct (Forall2_lookup_r _ _ _ _ _ Hcalls Hc) as (v & Hv & Hm).
    apply lookup_take_Some in Hv as [Hv _].
    apply lookup_seqZ in Hv as [-> _]. by rewrite Z.add_0_l in Hm. }
  split; [done|].
  assert (Hlen : ∃ k, length calls = S k ∧ (is_ok (sweep_loop fba float_repr (seqZ 0 41) [] w).1 = true → k = 40%nat)).
  { destruct (sweep_loop _ _ _ _ _).1 as [t|e].
    - destruct Hend as (_ & Hl & _). exists 40%nat. done.
    - destruct Hend as (k & _ & Hl & _). exists k. done. }
  destruct Hlen as (k & Hlen & Hok). exists k. split_and!; [done | | done].
  rewrite Hlast, last_lookup, Hlen. cbn [pred].
  destruct (lookup_lt_is_Some_2 calls k ltac:(lia)) as [c Hc].
  rewrite Hc. by apply Hall.
Qed.

Lemma X9_media_of_a_run_witness :
  preserving (stub_fba 2 3) ∧
  model (generate_beta_carotene_yield_df (stub_fba 2 3) no_repr (fresh_world ())).2 =
  mkModel (step_medium 40 ∅) ().
Proof.
  assert (H : preserving (stub_fba 2 3)) by (by intros m obj cs sense).
  split; [exact H|].
  destruct (X9_media_of_a_run (stub_fba 2 3) no_repr (fresh_world ()) H)
    as (_ & k & _ & Hm & Hk).
  rewrite Hm, (Hk eq_refl). reflexivity.
Defined.

(** ** Further properties of the amounts and of the conversions *)

(** X10. In every returned table the gram amounts of row [i] lie in [0, 1]
    and are within 2^-53 of [i/40] and of [1 - i/40]; oleic acid grams
    strictly decrease down the table. *)
Theorem X10_table_amounts {Extra}
    (fba : Model Extra → string → string → string → Model Extra * Result Solution)
    (float_repr : float → string) (w : World Extra) (t : DataFrame) :
  (generate_beta_carotene_yield_df fba float_repr w).1 = Ok t →
  (∀ i r, t !! i = Some r →
     (0 <=? g_glucose r)%float = true ∧ (g_glucose r <=? 1)%float = true ∧
     (0 <=? g_oleic_acid r)%float = true ∧ (g_oleic_acid r <=? 1)%float = true ∧
     near (2 ^ (-53)) (g_glucose r) (Z.of_nat i # 40) = true ∧
     near (2 ^ (-53)) (g_oleic_acid r) (1 - (Z.of_nat i # 40)) = true) ∧
  (∀ i j ri rj, (i < j)%nat → t !! i = Some ri → t !! j = Some rj →
     (g_oleic_acid rj <? g_oleic_acid ri)%float = true).
Proof.
  intros Hrun. destruct (generate_ok_amounts _ _ _ _ Hrun) as [Hlen Hrows].
  split.
  - intros i r Hr. pose proof (lookup_lt_Some _ _ _ Hr) as Hi.
    destruct (Hrows _ _ Hr) as [-> ->].
    pose proof (steps_forallb (λ i,
      (0 <=? glucose_grams i)%float && (glucose_grams i <=? 1)%float &&
      (0 <=? oleic_acid_grams i)%float && (oleic_acid_grams i <=? 1)%float &&
      near (2 ^ (-53)) (glucose_grams i) (i # 40) &&
      near (2 ^ (-53)) (oleic_acid_grams i) (1 - (i # 40)))
      ltac:(vm_compute; reflexivity) (Z.of_nat i) ltac:(lia)) as H.
    cbv beta in H. repeat (apply andb_prop in H as [H ?]). done.
  - intros i j ri rj Hij Hi Hj.
    pose proof (lookup_lt_Some _ _ _ Hj) as Hj'.
    destruct (Hrows _ _ Hi) as [_ ->]. destruct (Hrows _ _ Hj) as [_ ->].
    pose proof (steps_forallb
      (λ i, forallb (λ j, implb (i <? j) (oleic_acid_grams j <? oleic_acid_grams i)%float)
              (seqZ 0 41)) ltac:(vm_compute; reflexivity)
      (Z.of_nat i) ltac:(lia)) as H.
    cbv beta in H.
    pose proof (steps_forallb _ H (Z.of_nat j) ltac:(lia)) as H'. cbv beta in H'.
    assert ((Z.of_nat i <? Z.of_nat j) = true) as Hlt by (apply Z.ltb_lt; lia).
    by rewrite Hlt in H'.
Qed.

Lemma X10_table_amounts_witness :
  let run := generate_beta_carotene_yield_df (stub_fba 2 3) no_repr (fresh_world ()) in
  run.1 = Ok (table_of run.1) ∧
  ∀ i r, table_of run.1 !! i = Some r →
    (0 <=? g_glucose r)%float = true ∧ (g_glucose r <=? 1)%float = true.
Proof.
  intros run.
  assert (H : run.1 = Ok (table_of run.1)) by (vm_compute; reflexivity).
  split; [exact H|]. intros i r Hr.
  destruct (proj1 (X10_table_amounts (stub_fba 2 3) no_repr (fresh_world ()) _ H) i r Hr)
    as (H1 & H2 & _).
  split; [exact H1 | exact H2].
Defined.

(** X11. Every solver call of every run finds substrate bounds that are
    numbers between zero and the bound of the pure substrate: the glucose
    bound in [0, 1000/180.16], the oleic acid bound in [0, 1000/282.47];
    never negative, infinite or nan. *)
Theorem X11_uptake_bounds {Extra}
    (fba : Model Extra → string → string → string → Model Extra * Result Solution)
    (float_repr : float → string) (w : World Extra) (i : nat) (c : FbaCall Extra) :
  calls_since w (generate_beta_carotene_yield_df fba float_repr w).2 !! i = Some c →
  ∃ mmol_glucose mmol_oleic_acid,
    medium (call_model c) !! "EX_glc_e" = Some (PyFloat mmol_glucose) ∧
    medium (call_model c) !! "EX_ocdcea_e" = Some (PyFloat mmol_oleic_acid) ∧
    (0 <=? mmol_glucose)%float = true ∧
    (mmol_glucose <=? 1000 / 180.16)%float = true ∧
    (0 <=? mmol_oleic_acid)%float = true ∧
    (mmol_oleic_acid <=? 1000 / 282.47)%float = true.
Proof.
  intros Hc.
  pose proof (generate_trace fba float_repr w) as (_ & Hlen & Hcalls & _).
  cbv zeta in Hlen, Hcalls.
  pose proof (lookup_lt_Some _ _ _ Hc) as Hi.
  destruct (Hcalls _ _ Hc) as [(mg & mo & prior & Hg & Ho & Hm & _) _].
  rewrite grams_to_mmol_nonzero in Hg, Ho by reflexivity.
  injection Hg as <-. injection Ho as <-.
  eexists _, _. rewrite Hm.
  pose proof (assign_medium_assigned (1000 * glucose_grams (Z.of_nat i) / 180.16)
                (1000 * oleic_acid_grams (Z.of_nat i) / 282.47) prior) as (H1 & H2 & _).
  split; [exact H1|]. split; [exact H2|].
  pose proof (steps_forallb (λ i,
    (0 <=? 1000 * glucose_grams i / 180.16)%float &&
    (1000 * glucose_grams i / 180.16 <=? 1000 / 180.16)%float &&
    (0 <=? 1000 * oleic_acid_grams i / 282.47)%float &&
    (1000 * oleic_acid_grams i / 282.47 <=? 1000 / 282.47)%float)
    ltac:(vm_compute; reflexivity) (Z.of_nat i) ltac:(lia)) as H.
  cbv beta in H. repeat (apply andb_prop in H as [H ?]). done.
Qed.

Lemma X11_uptake_bounds_witness :
  let run := generate_beta_carotene_yield_df (stub_fba 2 3) no_repr (fresh_world ()) in
  ∃ c mmol_glucose,
    calls_since (fresh_world ()) run.2 !! 7%nat = Some c ∧
    medium (call_model c) !! "EX_glc_e" = Some (PyFloat mmol_glucose) ∧
    (0 <=? mmol_glucose)%float = true.
Proof.
  intros run.
  assert (H : ∃ c, calls_since (fresh_world ()) run.2 !! 7%nat = Some c)
    by (eexists; vm_compute; reflexivity).
  destruct H as [c Hc].
  destruct (X11_uptake_bounds (stub_fba 2 3) no_repr (fresh_world ()) 7 c Hc)
    as (mg & mo & Hg & _ & H0 & _).
  exists c, mg. split_and!; [exact Hc | exact Hg | exact H0].
Defined.

Lemma eta_tiny : (0 < eta ∧ eta <= 1 # 10 ^ 310)%Q.
Proof.
  split; [apply bpow_pos|]. unfold eta.
  apply Qle_trans with (bpow (-1040)); [apply bpow_le; lia|]. by vm_compute.
Qed.

(** X13. For a finite gram amount of magnitude at most 10^6 and a molar mass
    from 1 to 10^6, the millimoles computed are within 2.3e-16 of the
    exact quotient [1000 g / M], relatively, up to 1e-300. *)
Theorem X13_grams_to_mmol_accuracy (g M : float) (G Mq : Q) :
  value g = Some G → value M = Some Mq →
  (Qabs G <= 1000000)%Q → (1 <= Mq)%Q → (Mq <= 1000000)%Q →
  ∃ r qr, grams_to_mmol g M = Ok r ∧ value r = Some qr ∧
    (Qabs (qr - 1000 * G / Mq) <=
     (23 # 100000000000000000) * Qabs (1000 * G / Mq) + (1 # 10 ^ 300))%Q.
Proof.
  intros Hg HM HG HM1 HM2.
  destruct eta_tiny as [Heta0 Heta]. destruct eta_small as [_ Heta1].
  pose proof bpow_900_big as Hbig.
  assert ((1 # 10 ^ 310) * 3 <= 1 # 10 ^ 300)%Q as Htiny by (by vm_compute).
  remember (1 # 10 ^ 310)%Q as tiny eqn:Etiny. remember (1 # 10 ^ 300)%Q as tol eqn:Etol.
  clear Etiny Etol.
  assert (HM0 : (M =? 0)%float = false) by (apply (value_nonzero M Mq); [done | lra]).
  assert (HK : ∃ K, value 1000 = Some K ∧ (K == 1000)%Q)
    by (eexists; split; reflexivity).
  destruct HK as (K & HK & HKeq).
  pose proof (Qabs_nonneg G) as HG0.
  set (iM := (/ Mq)%Q).
  assert (HMi : (Mq * iM == 1)%Q) by (unfold iM; field; lra).
  assert (HiM0 : (0 < iM)%Q) by (apply Qinv_lt_0_compat; lra).
  assert (HiM1 : (iM <= 1)%Q).
  { assert (iM * 1 <= iM * Mq)%Q; [|lra].
    rewrite !(Qmult_comm iM). apply Qmult_le_compat_r; lra. }
  (* p = 1000 * g *)
  assert (HKG : (Qabs (K * G) == 1000 * Qabs G)%Q).
  { rewrite HKeq, Qabs_Qmult. reflexivity. }
  destruct (mul_error 1000 g K G HK Hg) as (qp & Hqp & Hp).
  { rewrite HKG. lra. }
  (* r = p / M *)
  set (X := (1000 * G / Mq)%Q).
  assert (HX : (X == 1000 * G * iM)%Q) by reflexivity.
  assert (HXabs : (Qabs X == 1000 * Qabs G * iM)%Q).
  { rewrite HX, Qabs_mult_pos by lra. rewrite Qabs_Qmult. reflexivity. }
  assert (HXle : (Qabs X <= 1000 * 1000000)%Q).
  { rewrite HXabs. apply Qle_trans with (1000 * Qabs G * 1)%Q; [|lra].
    rewrite !(Qmult_comm (1000 * Qabs G)). apply Qmult_le_compat_r; lra. }
  pose proof (Qabs_nonneg X) as HX0.
  set (e1 := (qp - K * G)%Q) in *.
  assert (He1 : (Qabs (e1 * iM) <= u53 * Qabs X + eta)%Q).
  { apply (scaled_error e1 (K * G) (Qabs X) Mq iM); try done.
    rewrite HKG, HXabs.
    assert (1000 * Qabs G * iM * Mq == 1000 * Qabs G * (Mq * iM))%Q as -> by ring.
    rewrite HMi. lra. }
  set (T := (qp * iM)%Q).
  assert (HT : (T == X + e1 * iM)%Q).
  { unfold T, e1. rewrite HX, HKeq. ring. }
  change u53 with (1 # 9007199254740992)%Q in He1.
  assert (HTabs : (Qabs T <= Qabs X + Qabs (e1 * iM))%Q).
  { rewrite HT. apply Qabs_triangle. }
  pose proof (Qabs_nonneg (e1 * iM)) as He10.
  destruct (div_error (1000 * g) M qp Mq T Hqp HM) as (qr & Hqr & Hr).
  { unfold T. rewrite <- Qmult_assoc, (Qmult_comm iM), HMi. ring. }
  { lra. }
  { lra. }
  change u53 with (1 # 9007199254740992)%Q in Hr.
  exists (1000 * g / M)%float, qr. split_and!; [by apply grams_to_mmol_nonzero | done |].
  fold X. pose proof (Qabs_nonneg T) as HT0.
  apply Qabs_Qle_condition in Hr.
  pose proof (Qabs_Qle_condition (e1 * iM) (Qabs (e1 * iM))) as [He1' _].
  specialize (He1' ltac:(lra)).
  apply Qabs_Qle_condition. lra.
Qed.

Lemma X13_grams_to_mmol_accuracy_witness :
  ∃ G Mq,
    value 0.25 = Some G ∧ value 180.16 = Some Mq ∧
    (Qabs G <= 1000000)%Q ∧ (1 <= Mq)%Q ∧ (Mq <= 1000000)%Q ∧
    ∃ r, grams_to_mmol 0.25 180.16 = Ok r.
Proof.
  eexists _, _.
  assert (Hg : value 0.25 = Some (1 * inject_Z 4503599627370496 * 2 ^ (-54))%Q)
    by reflexivity.
  assert (HM : value 180.16 = Some (1 * inject_Z 6338816475523973 * 2 ^ (-45))%Q)
    by reflexivity.
  assert (H1 : (Qabs (1 * inject_Z 4503599627370496 * 2 ^ (-54)) <= 1000000)%Q)
    by (by vm_compute).
  assert (H2 : (1 <= 1 * inject_Z 6338816475523973 * 2 ^ (-45))%Q) by (by vm_compute).
  assert (H3 : (1 * inject_Z 6338816475523973 * 2 ^ (-45) <= 1000000)%Q)
    by (by vm_compute).
  split_and!; [exact Hg | exact HM | exact H1 | exact H2 | exact H3 |].
  destruct (X13_grams_to_mmol_accuracy 0.25 180.16 _ _ Hg HM H1 H2 H3)
    as (r & qr & Hr & _).
  exists r. exact Hr.
Defined.

(** X14. For a finite millimole amount of magnitude at most 10^9 and a molar
    mass from 0 to 10^6, the grams computed are within 2.3e-16 of the exact
    product [n * M / 1000], relatively, up to 1e-300. *)
Theorem X14_mmol_to_grams_accuracy (mmols M : float) (N Mq : Q) :
  value mmols = Some N → value M = Some Mq →
  (Qabs N <= 1000000000)%Q → (0 <= Mq)%Q → (Mq <= 1000000)%Q →
  ∃ r qr, mmol_to_grams mmols M = Ok r ∧ value r = Some qr ∧
    (Qabs (qr - N * Mq / 1000) <=
     (23 # 100000000000000000) * Qabs (N * Mq / 1000) + (1 # 10 ^ 300))%Q.
Proof.
  intros Hn HM HN HM1 HM2.
  destruct eta_tiny as [Heta0 Heta]. destruct eta_small as [_ Heta1].
  pose proof bpow_900_big as Hbig.
  assert ((1 # 10 ^ 310) * 1000002 <= 1 # 10 ^ 300)%Q as Htiny by (by vm_compute).
  remember (1 # 10 ^ 310)%Q as tiny eqn:Etiny. remember (1 # 10 ^ 300)%Q as tol eqn:Etol.
  clear Etiny Etol.
  assert (HK : ∃ K, value 1000 = Some K ∧ (K == 1000)%Q)
    by (eexists; split; reflexivity).
  destruct HK as (K & HK & HKeq).
  pose proof (Qabs_nonneg N) as HN0.
  (* a = mmols / 1000 *)
  set (T1 := (N * (1 # 1000))%Q).
  assert (HT1 : (Qabs T1 == Qabs N * (1 # 1000))%Q) by (by apply Qabs_mult_pos).
  destruct (div_error mmols 1000 N K T1 Hn HK) as (qa & Hqa & Ha).
  { rewrite HKeq. unfold T1. ring. }
  { rewrite HKeq. lra. }
  { rewrite HT1. lra. }
  change u53 with (1 # 9007199254740992)%Q in Ha.
  pose proof (Qabs_nonneg T1) as HT10.
  set (e1 := (qa - T1)%Q) in *. pose proof (Qabs_nonneg e1) as He10.
  assert (Hqaabs : (Qabs qa <= Qabs T1 + Qabs e1)%Q).
  { assert (qa == T1 + e1)%Q as -> by (unfold e1; ring). apply Qabs_triangle. }
  (* r = a * M *)
  set (X := (N * Mq / 1000)%Q).
  assert (HX : (X == T1 * Mq)%Q) by (unfold X, T1; field).
  assert (HXabs : (Qabs X == Qabs T1 * Mq)%Q) by (rewrite HX; by apply Qabs_mult_pos).
  pose proof (Qabs_nonneg X) as HX0.
  assert (He1M : (Qabs e1 * Mq <= (1 # 9007199254740992) * Qabs X + eta * 1000000)%Q).
  { apply Qle_trans with (((1 # 9007199254740992) * Qabs T1 + eta) * Mq)%Q.
    - apply Qmult_le_compat_r; lra.
    - rewrite HXabs.
      assert (eta * Mq <= eta * 1000000)%Q.
      { rewrite !(Qmult_comm eta). apply Qmult_le_compat_r; lra. }
      lra. }
  assert (He1M0 : (0 <= Qabs e1 * Mq)%Q) by (apply Qmult_le_0_compat; lra).
  assert (HP : (Qabs (qa * Mq) <= Qabs X + Qabs e1 * Mq)%Q).
  { rewrite Qabs_mult_pos, HXabs by done.
    assert (Qabs T1 * Mq + Qabs e1 * Mq == (Qabs T1 + Qabs e1) * Mq)%Q as -> by ring.
    apply Qmult_le_compat_r; lra. }
  assert (HXle : (Qabs X <= 1000000 * 1000000)%Q).
  { rewrite HXabs. apply Qle_trans with (1000000 * Mq)%Q; [|lra].
    apply Qmult_le_compat_r; lra. }
  pose proof (Qabs_nonneg (qa * Mq)) as HP0.
  destruct (mul_error (mmols / 1000) M qa Mq Hqa HM) as (qr & Hqr & Hr).
  { lra. }
  change u53 with (1 # 9007199254740992)%Q in Hr.
  exists (mmols / 1000 * M)%float, qr. split_and!; [apply mmol_to_grams_eq | done |].
  fold X.
  assert (Hdiff : (qa * Mq - X == e1 * Mq)%Q) by (rewrite HX; unfold e1; ring).
  assert (He1M' : (Qabs (e1 * Mq) == Qabs e1 * Mq)%Q) by (by apply Qabs_mult_pos).
  pose proof (Qabs_Qle_condition (e1 * Mq) (Qabs (e1 * Mq))) as [He' _].
  specialize (He' ltac:(lra)).
  apply Qabs_Qle_condition in Hr. apply Qabs_Qle_condition. lra.
Qed.

Lemma X14_mmol_to_grams_accuracy_witness :
  ∃ N Mq,
    value 2 = Some N ∧ value 536.87 = Some Mq ∧
    (Qabs N <= 1000000000)%Q ∧ (0 <= Mq)%Q ∧ (Mq <= 1000000)%Q ∧
    ∃ r, mmol_to_grams 2 536.87 = Ok r.
Proof.
  assert (HN : ∃ N, value 2 = Some N ∧ (Qabs N <= 1000000000)%Q)
    by (eexists; split; [reflexivity | by vm_compute]).
  assert (HM : ∃ Mq, value 536.87 = Some Mq ∧ (0 <= Mq)%Q ∧ (Mq <= 1000000)%Q)
    by (eexists; split_and!; [reflexivity | by vm_compute | by vm_compute]).
  destruct HN as (N & HN & H1). destruct HM as (Mq & HM & H2 & H3).
  exists N, Mq. split_and!; [exact HN | exact HM | exact H1 | exact H2 | exact H3 |].
  destruct (X14_mmol_to_grams_accuracy 2 536.87 N Mq HN HM H1 H2 H3)
    as (r & qr & Hr & _).
  exists r. exact Hr.
Defined.

(** X15. An objective value that is nan is no error: with a solver that
    answers every call with a nan objective value and some CO2 flux, the
    run returns its 41 rows, each with nan as beta-carotene grams. *)
Theorem X15_nan_objective {Extra}
    (fba : Model Extra → string → string → string → Model Extra * Result Solution)
    (float_repr : float → string) (w : World Extra) :
  (∀ m obj constraints obj_sense, ∃ sol,
     (fba m obj constraints obj_sense).2 = Ok sol ∧
     objective_value sol = nan ∧ is_Some (fluxes sol !! "EX_co2(e)")) →
  ∃ t, (generate_beta_carotene_yield_df fba float_repr w).1 = Ok t ∧
    length t = 41%nat ∧
    ∀ r, r ∈ t → g_beta_carotene r = nan.
Proof.
  intros Hfba.
  destruct (generate_returns fba float_repr w) as [t Ht].
  { intros m obj cs sense. destruct (Hfba m obj cs sense) as (sol & ? & _ & ?). eauto. }
  exists t. split; [done|].
  pose proof (generate_trace fba float_repr w) as (_ & _ & Hcalls & Hend).
  cbv zeta in Hcalls, Hend. rewrite Ht in Hend. destruct Hend as (Hlen & _ & Hrows).
  split; [done|]. intros r [i Hr]%list_elem_of_lookup.
  destruct (Hrows _ _ Hr) as (c & Hc & _ & _ & Hres).
  destruct (Hcalls _ _ Hc) as [_ Hans]. red in Hans.
  destruct (Hfba (call_model c) (call_obj c) (call_constraints c) (call_obj_sense c))
    as (sol & Hsol & Hnan & [co2 Hco2]).
  rewrite Hans, Hsol in Hres. cbn in Hres. rewrite Hnan, Hco2 in Hres.
  by injection Hres as <- _.
Qed.

Lemma X15_nan_objective_witness :
  (∀ m obj constraints obj_sense, ∃ sol,
     (stub_fba nan 3 m obj constraints obj_sense).2 = Ok sol ∧
     objective_value sol = nan ∧ is_Some (fluxes sol !! "EX_co2(e)")) ∧
  ∃ t, (generate_beta_carotene_yield_df (stub_fba nan 3) no_repr (fresh_world ())).1 = Ok t ∧
    length t = 41%nat.
Proof.
  assert (H : ∀ (m : Model ()) (obj constraints obj_sense : string), ∃ sol,
     (stub_fba nan 3 m obj constraints obj_sense).2 = Ok sol ∧
     objective_value sol = nan ∧ is_Some (fluxes sol !! "EX_co2(e)")).
  { intros m obj cs sense. eexists. cbn. split_and!; [reflexivity | reflexivity |].
    by eexists. }
  split; [exact H|].
  destruct (X15_nan_objective (stub_fba nan 3) no_repr (fresh_world ()) H)
    as (t & Ht & Hlen & _).
  exists t. split; [exact Ht | exact Hlen].
Defined.
